(** * User Data Sync orchestrator: [UserDataSyncService]

    A shallow embedding of
    [src/vs/platform/userDataSync/electron-browser/userDataAutoSyncService.ts]
    (class [UserDataSyncService]) and the properties of its
    orchestration contract.

    The orchestrator is single-threaded, cooperative code: every [await]
    hands control to a collaborator (a synchroniser, the sync store) and
    resumes with its answer.  The embedding threads one state through the
    calls: the private fields of the service, the storage service's
    key/value map, the state of the collaborators (the "world") and a
    chronological trace of what the service did to the outside (calls on
    synchronisers and on the store, emitter firings, log lines,
    telemetry). *)

From Stdlib Require Import ZArith List String Bool Lia Permutation.
From stdpp Require Import base option list strings gmap.

Local Open Scope Z_scope.
Local Open Scope string_scope.
Local Open Scope list_scope.

(** ** Data model *)

(** [SyncStatus], the enum the service and the synchronisers share. *)
Inductive SyncStatus : Type :=
| Uninitialized
| Idle
| Syncing
| HasConflicts.

#[global] Instance SyncStatus_eq_dec : EqDecision SyncStatus.
Proof. solve_decision. Defined.

(** Modelled from the spec: the enum [SyncSource] is declared in
    [vs/platform/userDataSync/common/userDataSync], outside the sources at
    hand; the spec names its four members (settings, keybindings, global
    state, extensions). *)
Inductive SyncSource : Type :=
| Settings
| Keybindings
| GlobalState
| Extensions.

#[global] Instance SyncSource_eq_dec : EqDecision SyncSource.
Proof. solve_decision. Defined.

(** [ResourceKey] is a string-literal type; at run time a resource key is
    the property name used to index [manifest.latest]. *)
Definition ResourceKey : Type := string.

(** Modelled from the spec: [UserDataSyncErrorCode] is declared outside
    the sources at hand.  The service names three of its members; the
    remaining ("synchroniser-specific", "passed through unchanged") codes
    are kept by name. *)
Inductive UserDataSyncErrorCode : Type :=
| TooLarge
| TurnedOff
| SessionExpired
| OtherCode (name : string).

#[global] Instance UserDataSyncErrorCode_eq_dec : EqDecision UserDataSyncErrorCode.
Proof. solve_decision. Defined.

(** The values the service catches and throws.  The class chain is
    [Error] > [UserDataSyncError] > [UserDataSyncStoreError]; a value is
    tagged with its most specific class. *)
Inductive JsError : Type :=
| Error (message : string)
| UserDataSyncError (message : string) (code : UserDataSyncErrorCode)
| UserDataSyncStoreError (message : string) (code : UserDataSyncErrorCode).

#[global] Instance JsError_eq_dec : EqDecision JsError.
Proof. solve_decision. Defined.

(** [e instanceof UserDataSyncStoreError] *)
Definition instanceofUserDataSyncStoreError (e : JsError) : bool :=
  match e with
  | UserDataSyncStoreError _ _ => true
  | _ => false
  end.

(** Modelled from the spec: the manifest type is declared outside the
    sources at hand: "{ session: string, latest: mapping<ResourceKey,
    version-ref> }".  The service tests [manifest.latest] before indexing
    it, so the field may be missing. *)
Record IUserDataManifest : Type := {
  session : string;
  latest : option (gmap string string)
}.

(** The result of an awaited call: a value, or a thrown error. *)
Inductive Result (A : Type) : Type :=
| Ok (a : A)
| Throw (e : JsError).
Arguments Ok {A} a.
Arguments Throw {A} e.

(** The methods of [IUserDataSynchroniser] the service calls, with their
    arguments. *)
Inductive Method : Type :=
| MPull
| MPush
| MSync (ref : option string)
| MStop
| MAccept (content : string)
| MGetRemoteContent (preview : bool)
| MResolveContent (ref : string)
| MHasPreviouslySynced
| MHasLocalData
| MResetLocal.

(** What the service does to the outside, in the order it does it: calls
    on synchronisers and on the store, firings of its four emitters, log
    lines and telemetry.  [LogSyncDone took] is the line
    "Sync done. Took <took>ms"; [LogSourceError source e] is the line
    "<source>: <message of e>"; [Telemetry] is [publicLog2]. *)
Inductive Event : Type :=
| Invoke (source : SyncSource) (m : Method)
| StoreManifest
| StoreClear
| DidChangeStatus (status : SyncStatus)
| DidChangeConflicts (sources : list SyncSource)
| SyncErrors (errors : list (SyncSource * JsError))
| DidChangeLastSyncTime (time : Z)
| LogTrace (message : string)
| LogSyncDone (took : Z)
| LogError (e : JsError)
| LogSourceError (source : SyncSource) (e : JsError)
| Telemetry (name : string) (source : SyncSource).

(** Values kept by the storage service. *)
Inductive StorageValue : Type :=
| StoredString (s : string)
| StoredNumber (n : Z).

Definition SESSION_ID_KEY : string := "sync.sessionId".
Definition LAST_SYNC_TIME_KEY : string := "sync.lastSyncTime".

(** ** Collaborators *)

(** What a call on a synchroniser does to the world [W] of the
    collaborators: its result, the world it leaves, and the worlds in
    which the synchroniser fired [onDidChangeStatus] while the call ran
    (the service listens to that event, see the constructor). *)
Record Outcome (W A : Type) : Type := {
  result : Result A;
  after : W;
  fired : list W
}.
Arguments result {W A} _.
Arguments after {W A} _.
Arguments fired {W A} _.

Module Synchroniser.

(** [IUserDataSynchroniser]: the contract of one synchroniser. *)
Record t (W : Type) : Type := {
  source : SyncSource;
  resourceKey : ResourceKey;
  status : W -> SyncStatus;
  pull : W -> Outcome W unit;
  push : W -> Outcome W unit;
  sync : option string -> W -> Outcome W unit;
  stop : W -> Outcome W unit;
  accept : string -> W -> Outcome W unit;
  getRemoteContent : bool -> W -> Outcome W (option string);
  resolveContent : string -> W -> Outcome W (option string);
  hasPreviouslySynced : W -> Outcome W bool;
  hasLocalData : W -> Outcome W bool;
  resetLocal : W -> Outcome W unit
}.
Arguments source {W} _.
Arguments resourceKey {W} _.
Arguments status {W} _ _.
Arguments pull {W} _ _.
Arguments push {W} _ _.
Arguments sync {W} _ _ _.
Arguments stop {W} _ _.
Arguments accept {W} _ _ _.
Arguments getRemoteContent {W} _ _ _.
Arguments resolveContent {W} _ _ _.
Arguments hasPreviouslySynced {W} _ _.
Arguments hasLocalData {W} _ _.
Arguments resetLocal {W} _ _.

End Synchroniser.

Module StoreService.

(** [IUserDataSyncStoreService]: [userDataSyncStore] is a read-only
    property, defined when the store is configured; [manifest] and
    [clear] are requests. *)
Record t (W : Type) : Type := {
  userDataSyncStore : option string;
  manifest : W -> Result (option IUserDataManifest) * W;
  clear : W -> Result unit * W
}.
Arguments userDataSyncStore {W} _.
Arguments manifest {W} _ _.
Arguments clear {W} _ _.

End StoreService.

(** Everything injected into the service.  [now] is [new Date().getTime()];
    [equals] is the array helper of [vs/base/common/arrays] and
    [toUserDataSyncError] the static method of [UserDataSyncError], both
    declared outside the sources at hand and taken as parameters. *)
Class Services : Type := {
  W : Type;
  userDataSyncStoreService : StoreService.t W;
  synchronisers : list (Synchroniser.t W);
  now : W -> Z;
  equals : list SyncSource -> list SyncSource -> bool;
  toUserDataSyncError : JsError -> JsError
}.

(** ** State of the service *)

Section Model.
Context `{Sv : Services}.

Record State : Type := mkState {
  _status : SyncStatus;
  _conflictsSources : list SyncSource;
  _syncErrors : list (SyncSource * JsError);
  _lastSyncTime : option Z;
  storage : gmap string StorageValue;
  world : W;
  trace : list Event
}.

Definition set_status (s : SyncStatus) (st : State) : State :=
  mkState s (_conflictsSources st) (_syncErrors st) (_lastSyncTime st)
          (storage st) (world st) (trace st).

Definition set_conflictsSources (l : list SyncSource) (st : State) : State :=
  mkState (_status st) l (_syncErrors st) (_lastSyncTime st)
          (storage st) (world st) (trace st).

Definition set_syncErrors (l : list (SyncSource * JsError)) (st : State) : State :=
  mkState (_status st) (_conflictsSources st) l (_lastSyncTime st)
          (storage st) (world st) (trace st).

Definition set_lastSyncTime (t : option Z) (st : State) : State :=
  mkState (_status st) (_conflictsSources st) (_syncErrors st) t
          (storage st) (world st) (trace st).

Definition set_storage (g : gmap string StorageValue) (st : State) : State :=
  mkState (_status st) (_conflictsSources st) (_syncErrors st) (_lastSyncTime st)
          g (world st) (trace st).

Definition set_world (w : W) (st : State) : State :=
  mkState (_status st) (_conflictsSources st) (_syncErrors st) (_lastSyncTime st)
          (storage st) w (trace st).

Definition emit (ev : Event) (st : State) : State :=
  mkState (_status st) (_conflictsSources st) (_syncErrors st) (_lastSyncTime st)
          (storage st) (world st) (trace st ++ [ev]).

(** *** The storage service

    [get] answers a stored string, [getNumber] a stored number; the
    service keeps a string under the session key and a number under the
    time key and never reads one as the other. *)
Definition storageGet (key : string) (st : State) : option string :=
  match storage st !! key with
  | Some (StoredString s) => Some s
  | _ => None
  end.

Definition storageGetNumber (key : string) (st : State) : option Z :=
  match storage st !! key with
  | Some (StoredNumber n) => Some n
  | _ => None
  end.

Definition storageStore (key : string) (v : StorageValue) (st : State) : State :=
  set_storage (<[key := v]> (storage st)) st.

Definition storageRemove (key : string) (st : State) : State :=
  set_storage (delete key (storage st)) st.

(** ** Synchronous private methods *)

(** [private updateLastSyncTime(): void] *)
Definition updateLastSyncTime (st : State) : State :=
  if bool_decide (_status st = Idle) then
    let t := now (world st) in
    emit (DidChangeLastSyncTime t)
      (storageStore LAST_SYNC_TIME_KEY (StoredNumber t)
         (set_lastSyncTime (Some t) st))
  else st.

(** [private setStatus(status: SyncStatus): void] *)
Definition setStatus (status : SyncStatus) (st : State) : State :=
  let oldStatus := _status st in
  if bool_decide (_status st <> status) then
    let st1 := emit (DidChangeStatus status) (set_status status st) in
    if bool_decide (oldStatus = HasConflicts) then updateLastSyncTime st1
    else st1
  else st.

(** [private computeConflictsSources(): SyncSource[]] *)
Definition computeConflictsSources (st : State) : list SyncSource :=
  map Synchroniser.source
    (List.filter
       (fun s => bool_decide (Synchroniser.status s (world st) = HasConflicts))
       synchronisers).

(** [private computeStatus(): SyncStatus] *)
Definition computeStatus (st : State) : SyncStatus :=
  match StoreService.userDataSyncStore userDataSyncStoreService with
  | None => Uninitialized
  | Some _ =>
    if existsb
         (fun s => bool_decide (Synchroniser.status s (world st) = HasConflicts))
         synchronisers
    then HasConflicts
    else if existsb
         (fun s => bool_decide (Synchroniser.status s (world st) = Syncing))
         synchronisers
    then Syncing
    else Idle
  end.

(** [private updateStatus(): void] *)
Definition updateStatus (st : State) : State :=
  let conflictsSources := computeConflictsSources st in
  let st1 :=
    if negb (equals (_conflictsSources st) conflictsSources) then
      emit (DidChangeConflicts conflictsSources)
        (set_conflictsSources (computeConflictsSources st) st)
    else st in
  let status := computeStatus st1 in
  setStatus status st1.

(** ** The monad of the asynchronous methods

    A method runs from a state and ends in a state, with a value or a
    thrown error (a rejected promise).  What was done before a throw stays
    done. *)
Definition M (A : Type) : Type := State -> Result A * State.

Definition ret {A : Type} (a : A) : M A := fun st => (Ok a, st).

Definition throw {A : Type} (e : JsError) : M A := fun st => (Throw e, st).

Definition bind {A B : Type} (m : M A) (k : A -> M B) : M B :=
  fun st =>
    match m st with
    | (Ok a, st1) => k a st1
    | (Throw e, st1) => (Throw e, st1)
    end.

(** [try { m } catch (e) { h e }] *)
Definition try_catch {A : Type} (m : M A) (h : JsError -> M A) : M A :=
  fun st =>
    match m st with
    | (Ok a, st1) => (Ok a, st1)
    | (Throw e, st1) => h e st1
    end.

(** [try { m } finally { f }]: [f] runs either way; the outcome of [m]
    stands unless [f] itself throws. *)
Definition try_finally {A : Type} (m : M A) (f : M unit) : M A :=
  fun st =>
    match m st with
    | (r, st1) =>
      match f st1 with
      | (Ok _, st2) => (r, st2)
      | (Throw e, st2) => (Throw e, st2)
      end
    end.

(** A synchronous [void] method, or an assignment to a field. *)
Definition modify (f : State -> State) : M unit := fun st => (Ok tt, f st).

(** Reading a field. *)
Definition gets {A : Type} (f : State -> A) : M A := fun st => (Ok (f st), st).

Notation "x <- m ;; k" := (bind m (fun x => k))
  (at level 100, m at next level, right associativity).
Notation "m ;; k" := (bind m (fun _ => k))
  (at level 100, right associativity).

(** [for (const x of l) { body x }] *)
Fixpoint forEach {A : Type} (l : list A) (body : A -> M unit) : M unit :=
  match l with
  | [] => ret tt
  | x :: rest => body x ;; forEach rest body
  end.

(** The listener the constructor registers on every synchroniser's
    [onDidChangeStatus]: [() => this.updateStatus()], registered only when
    the store is configured. *)
Definition onDidChangeStatusListener (st : State) : State :=
  match StoreService.userDataSyncStore userDataSyncStoreService with
  | Some _ => updateStatus st
  | None => st
  end.

(** [await synchroniser.m(...)]: the call is made in the current world;
    each status change the synchroniser fires while it runs reaches the
    listener in the world of that moment; the service resumes in the world
    the call leaves. *)
Definition invoke {A : Type} (s : Synchroniser.t W) (m : Method)
    (call : W -> Outcome W A) : M A :=
  fun st =>
    let o := call (world st) in
    let st1 :=
      fold_left (fun acc w => onDidChangeStatusListener (set_world w acc))
                (fired o) (emit (Invoke (Synchroniser.source s) m) st) in
    (result o, set_world (after o) st1).

(** [await this.userDataSyncStoreService.manifest()] *)
Definition fetchManifest : M (option IUserDataManifest) :=
  fun st =>
    match StoreService.manifest userDataSyncStoreService (world st) with
    | (r, w) => (r, set_world w (emit StoreManifest st))
    end.

(** [await this.userDataSyncStoreService.clear()] *)
Definition clearStore : M unit :=
  fun st =>
    match StoreService.clear userDataSyncStoreService (world st) with
    | (r, w) => (r, set_world w (emit StoreClear st))
    end.

(** ** Private asynchronous methods *)

(** [private async checkEnablement(): Promise<void>] *)
Definition checkEnablement : M unit :=
  match StoreService.userDataSyncStore userDataSyncStoreService with
  | None => throw (Error "Not enabled")
  | Some _ => ret tt
  end.

(** [private handleSyncError(e: Error, source: SyncSource): void] *)
Definition handleSyncError (e : JsError) (source : SyncSource) : M unit :=
  match e with
  | UserDataSyncStoreError _ code =>
    match code with
    | TooLarge => modify (emit (Telemetry "sync/errorTooLarge" source))
    | _ => ret tt
    end ;;
    throw e
  | _ =>
    modify (emit (LogError e)) ;;
    modify (emit (LogSourceError source e))
  end.

(** [private async hasPreviouslySynced(): Promise<boolean>], as a loop
    over the synchronisers still to ask. *)
Fixpoint hasPreviouslySyncedFrom (l : list (Synchroniser.t W)) : M bool :=
  match l with
  | [] => ret false
  | s :: rest =>
    b <- invoke s MHasPreviouslySynced (Synchroniser.hasPreviouslySynced s) ;;
    if b then ret true else hasPreviouslySyncedFrom rest
  end.

Definition hasPreviouslySynced : M bool :=
  hasPreviouslySyncedFrom synchronisers.

(** [private async hasLocalData(): Promise<boolean>] *)
Fixpoint hasLocalDataFrom (l : list (Synchroniser.t W)) : M bool :=
  match l with
  | [] => ret false
  | s :: rest =>
    b <- invoke s MHasLocalData (Synchroniser.hasLocalData s) ;;
    if b then ret true else hasLocalDataFrom rest
  end.

Definition hasLocalData : M bool := hasLocalDataFrom synchronisers.

(** [private async resetRemote(): Promise<void>] *)
Definition resetRemote : M unit :=
  checkEnablement ;;
  try_catch clearStore (fun e => modify (emit (LogError e))).

(** [getSynchroniser(source: SyncSource): IUserDataSynchroniser]: the
    first element of the filtered array, [undefined] when it is empty. *)
Definition getSynchroniser (source : SyncSource) : option (Synchroniser.t W) :=
  head (List.filter (fun s => bool_decide (Synchroniser.source s = source))
                    synchronisers).

(** ** Public methods *)

(** One turn of the loop of [pull]. *)
Definition pullOne (s : Synchroniser.t W) : M unit :=
  try_catch (invoke s MPull (Synchroniser.pull s))
            (fun e => handleSyncError e (Synchroniser.source s)).

(** [async pull(): Promise<void>] *)
Definition pull : M unit :=
  checkEnablement ;;
  forEach synchronisers pullOne ;;
  modify updateLastSyncTime.

(** One turn of the loop of [push]. *)
Definition pushOne (s : Synchroniser.t W) : M unit :=
  try_catch (invoke s MPush (Synchroniser.push s))
            (fun e => handleSyncError e (Synchroniser.source s)).

(** [async push(): Promise<void>] *)
Definition push : M unit :=
  checkEnablement ;;
  forEach synchronisers pushOne ;;
  modify updateLastSyncTime.

(** The argument of [synchroniser.sync]:
    [manifest && manifest.latest ? manifest.latest[resourceKey] : undefined] *)
Definition latestRef (manifest : option IUserDataManifest) (key : ResourceKey)
    : option string :=
  match manifest with
  | Some m =>
    match latest m with
    | Some l => l !! key
    | None => None
    end
  | None => None
  end.

(** One turn of the loop of [sync]. *)
Definition syncOne (manifest : option IUserDataManifest) (s : Synchroniser.t W)
    : M unit :=
  try_catch
    (invoke s (MSync (latestRef manifest (Synchroniser.resourceKey s)))
       (Synchroniser.sync s (latestRef manifest (Synchroniser.resourceKey s))))
    (fun e =>
       handleSyncError e (Synchroniser.source s) ;;
       modify (fun st =>
         set_syncErrors
           (_syncErrors st ++ [(Synchroniser.source s, toUserDataSyncError e)])
           st)).

(** [sessionId && manifest && sessionId !== manifest.session]: an absent
    and an empty session id are both falsy. *)
Definition sessionExpired (sessionId : option string)
    (manifest : option IUserDataManifest) : bool :=
  match sessionId, manifest with
  | Some sid, Some m =>
    negb (bool_decide (sid = "")) && negb (bool_decide (sid = session m))
  | _, _ => false
  end.

(** The [try] block of [sync] up to its loop: the manifest is fetched and
    the round is refused when syncing was turned off or the session
    expired.  Answers the manifest and the stored session id.  The
    messages are the default messages given to [localize]. *)
Definition syncPrelude : M (option IUserDataManifest * option string) :=
  modify (emit (LogTrace "Sync started.")) ;;
  status <- gets _status ;;
  (if bool_decide (status <> HasConflicts) then modify (setStatus Syncing)
   else ret tt) ;;
  manifest <- fetchManifest ;;
  (match manifest with
   | None =>
     previouslySynced <- hasPreviouslySynced ;;
     if previouslySynced then
       throw (UserDataSyncError
                "Cannot sync because syncing is turned off in the cloud"
                TurnedOff)
     else ret tt
   | Some _ => ret tt
   end) ;;
  sessionId <- gets (storageGet SESSION_ID_KEY) ;;
  (if sessionExpired sessionId manifest then
     throw (UserDataSyncError
              "Cannot sync because current session is expired"
              SessionExpired)
   else ret tt) ;;
  ret (manifest, sessionId).

(** The loop of [sync]. *)
Definition syncLoop (manifest : option IUserDataManifest)
    (l : list (Synchroniser.t W)) : M unit :=
  forEach l (syncOne manifest).

(** The [try] block of [sync] after its loop. *)
Definition syncEpilogue (startTime : Z) (manifest : option IUserDataManifest)
    (sessionId : option string) : M unit :=
  manifest <- (match manifest with
               | None => fetchManifest
               | Some _ => ret manifest
               end) ;;
  (match manifest with
   | Some m =>
     if bool_decide (Some (session m) <> sessionId) then
       modify (storageStore SESSION_ID_KEY (StoredString (session m)))
     else ret tt
   | None => ret tt
   end) ;;
  endTime <- gets (fun st => now (world st)) ;;
  modify (emit (LogSyncDone (endTime - startTime))) ;;
  modify updateLastSyncTime.

(** The [try] block of [sync]. *)
Definition syncRound (startTime : Z) : M unit :=
  fetched <- syncPrelude ;;
  syncLoop (fst fetched) synchronisers ;;
  syncEpilogue startTime (fst fetched) (snd fetched).

(** The [finally] block of [sync]. *)
Definition syncFinally : M unit :=
  modify updateStatus ;;
  errors <- gets _syncErrors ;;
  modify (emit (SyncErrors errors)).

(** [async sync(): Promise<void>] *)
Definition sync : M unit :=
  checkEnablement ;;
  startTime <- gets (fun st => now (world st)) ;;
  modify (set_syncErrors []) ;;
  try_finally (syncRound startTime) syncFinally.

(** [async stop(): Promise<void>] *)
Definition stop : M unit :=
  checkEnablement ;;
  status <- gets _status ;;
  if bool_decide (status = Idle) then ret tt
  else
    forEach synchronisers (fun s =>
      try_catch
        (sstatus <- gets (fun st => Synchroniser.status s (world st)) ;;
         if bool_decide (sstatus <> Idle)
         then invoke s MStop (Synchroniser.stop s)
         else ret tt)
        (fun e => modify (emit (LogError e)))).

(** [async accept(source: SyncSource, content: string): Promise<void>].
    Calling a method of [undefined] throws a [TypeError]. *)
Definition accept (source : SyncSource) (content : string) : M unit :=
  checkEnablement ;;
  match getSynchroniser source with
  | Some s => invoke s (MAccept content) (Synchroniser.accept s content)
  | None => throw (Error "TypeError: Cannot read property 'accept' of undefined")
  end.

(** [async getRemoteContent(source, preview): Promise<string | null>] *)
Fixpoint getRemoteContentFrom (l : list (Synchroniser.t W))
    (source : SyncSource) (preview : bool) : M (option string) :=
  match l with
  | [] => ret None
  | s :: rest =>
    if bool_decide (Synchroniser.source s = source) then
      invoke s (MGetRemoteContent preview) (Synchroniser.getRemoteContent s preview)
    else getRemoteContentFrom rest source preview
  end.

Definition getRemoteContent (source : SyncSource) (preview : bool)
    : M (option string) :=
  checkEnablement ;;
  getRemoteContentFrom synchronisers source preview.

(** [async resolveContent(resourceKey, ref): Promise<string | null>] *)
Definition resolveContent (resourceKey : ResourceKey) (ref : string)
    : M (option string) :=
  match head (List.filter
                (fun s => bool_decide (Synchroniser.resourceKey s = resourceKey))
                synchronisers) with
  | Some synchronizer =>
    invoke synchronizer (MResolveContent ref)
           (Synchroniser.resolveContent synchronizer ref)
  | None => ret None
  end.

(** [async isFirstTimeSyncWithMerge(): Promise<boolean>] *)
Definition isFirstTimeSyncWithMerge : M bool :=
  checkEnablement ;;
  manifest <- fetchManifest ;;
  match manifest with
  | None => ret false
  | Some _ =>
    previouslySynced <- hasPreviouslySynced ;;
    if previouslySynced then ret false else hasLocalData
  end.

(** [async resetLocal(): Promise<void>].  [synchroniser.resetLocal()] is
    not awaited: the [catch] sees what the call throws before it returns
    its promise. *)
Definition resetLocal : M unit :=
  checkEnablement ;;
  modify (storageRemove SESSION_ID_KEY) ;;
  modify (storageRemove LAST_SYNC_TIME_KEY) ;;
  forEach synchronisers (fun s =>
    try_catch (invoke s MResetLocal (Synchroniser.resetLocal s))
      (fun e =>
         modify (emit (LogSourceError (Synchroniser.source s) e)) ;;
         modify (emit (LogError e)))).

(** [async reset(): Promise<void>] *)
Definition reset : M unit :=
  checkEnablement ;;
  resetRemote ;;
  resetLocal.

(** The constructor: the fields' initial values, [this.updateStatus()],
    then the last sync time read from the storage. *)
Definition construct (w : W) (stored : gmap string StorageValue) : State :=
  let st := updateStatus (mkState Uninitialized [] [] None stored w []) in
  set_lastSyncTime (storageGetNumber LAST_SYNC_TIME_KEY st) st.

End Model.

(** ** Reading the trace *)

(** The calls made on synchronisers, in order. *)
Definition invocations (tr : list Event) : list (SyncSource * Method) :=
  omap (fun ev => match ev with
                  | Invoke src m => Some (src, m)
                  | _ => None
                  end) tr.

(** The calls of [sync] made on synchronisers, in order, with the version
    reference each was given. *)
Definition syncInvocations (tr : list Event) : list (SyncSource * option string) :=
  omap (fun ev => match ev with
                  | Invoke src (MSync r) => Some (src, r)
                  | _ => None
                  end) tr.

(** The change notifications: what [setStatus], [updateStatus] and
    [updateLastSyncTime] fire. *)
Definition notification (ev : Event) : Prop :=
  match ev with
  | DidChangeStatus _ | DidChangeConflicts _ | DidChangeLastSyncTime _ => True
  | _ => False
  end.

(** The events a method emits on its own account: neither a call on a
    synchroniser nor one of the change notifications, which only
    [setStatus], [updateStatus] and [updateLastSyncTime] fire. *)
Definition quietEvent (ev : Event) : Prop :=
  match ev with
  | Invoke _ _ | DidChangeStatus _ | DidChangeConflicts _
  | DidChangeLastSyncTime _ => False
  | _ => True
  end.

(** The events a step from [st] to [st'] added to the trace. *)
Definition emitted `{Sv : Services} (st st' : State) : list Event :=
  drop (length (trace st)) (trace st').





(** The errors logged with the source they came from (the lines
    "<source>: <message>"), in order. *)
Definition logged (tr : list Event) : list (SyncSource * JsError) :=
  omap (fun ev => match ev with
                  | LogSourceError src e => Some (src, e)
                  | _ => None
                  end) tr.


(** ** The words of the specification *)

(** Status aggregation as the specification words it, over the tuple of
    the synchronisers' statuses: "Uninitialized if the store reports not
    configured, else HasConflicts if any synchroniser status is
    HasConflicts, else Syncing if any synchroniser status is Syncing, else
    Idle". *)
Definition aggregateStatus_spec (configured : bool) (statuses : list SyncStatus)
    : SyncStatus :=
  if negb configured then Uninitialized
  else if bool_decide (HasConflicts ∈ statuses) then HasConflicts
  else if bool_decide (Syncing ∈ statuses) then Syncing
  else Idle.

(** "Refresh LastSyncTime": set to the current time, persisted, with a
    change notification. *)
Definition lastSyncTimeRefreshed `{Sv : Services} (st st' : State) : Prop :=
  let t := now (world st) in
  _lastSyncTime st' = Some t /\
  storageGetNumber LAST_SYNC_TIME_KEY st' = Some t /\
  exists evs, trace st' = trace st ++ evs /\ DidChangeLastSyncTime t ∈ evs.

(** Nothing about the last sync time moved: field, stored value and
    notifications. *)
Definition lastSyncTimeUntouched `{Sv : Services} (st st' : State) : Prop :=
  _lastSyncTime st' = _lastSyncTime st /\
  storage st' = storage st /\
  exists evs, trace st' = trace st ++ evs /\
              forall t, DidChangeLastSyncTime t ∉ evs.

(** Asked in turn, each in the world its predecessor left, some
    synchroniser of the list answers that it has previously synced, and
    all before it answered that they have not. *)
Inductive reportsPreviouslySynced {W : Type}
    : list (Synchroniser.t W) -> W -> Prop :=
| reports_here s rest w :
    result (Synchroniser.hasPreviouslySynced s w) = Ok true ->
    reportsPreviouslySynced (s :: rest) w
| reports_later s rest w :
    result (Synchroniser.hasPreviouslySynced s w) = Ok false ->
    reportsPreviouslySynced rest (after (Synchroniser.hasPreviouslySynced s w)) ->
    reportsPreviouslySynced (s :: rest) w.


(** An answer that ends a loop of transfers: a store error. *)
Definition endsLoop (r : Result unit) : bool :=
  match r with
  | Throw e => instanceofUserDataSyncStoreError e
  | Ok _ => false
  end.

(** The synchronisers of [l] asked in turn for the transfer [call], each
    in the world its predecessor left, up to and including the first
    that throws a store error: who was asked, and what each answered.
    This follows the words of the specification ("for each synchroniser,
    in a fixed, stable order", "continue to the next", a store error
    "always re-thrown to the caller"), not the code of the service. *)
Fixpoint asked {W : Type} (call : Synchroniser.t W -> W -> Outcome W unit)
    (l : list (Synchroniser.t W)) (w : W)
    : list (Synchroniser.t W * Result unit) :=
  match l with
  | [] => []
  | s :: rest =>
    (s, result (call s w))
    :: (if endsLoop (result (call s w)) then []
        else asked call rest (after (call s w)))
  end.

(** Among answers, the errors that are not store errors, each with the
    source of the synchroniser that threw it. *)
Definition caught {W : Type} (answers : list (Synchroniser.t W * Result unit))
    : list (SyncSource * JsError) :=
  omap (fun x => match snd x with
                 | Throw e =>
                   if instanceofUserDataSyncStoreError e then None
                   else Some (Synchroniser.source (fst x), e)
                 | Ok _ => None
                 end) answers.

(** Among answers, the first store error. *)
Fixpoint propagated {W : Type} (answers : list (Synchroniser.t W * Result unit))
    : option JsError :=
  match answers with
  | [] => None
  | (_, Throw e) :: rest =>
    if instanceofUserDataSyncStoreError e then Some e else propagated rest
  | (_, Ok _) :: rest => propagated rest
  end.

(** How a loop of transfers ends, given the answers: it throws the store
    error, or returns. *)
Definition loopResult {W : Type} (answers : list (Synchroniser.t W * Result unit))
    : Result unit :=
  match propagated answers with
  | Some e => Throw e
  | None => Ok tt
  end.

(** ** Life of a service *)

(** The last sync time the constructor finds in the storage. *)
Definition initialLastSyncTime (stored : gmap string StorageValue) : option Z :=
  match stored !! LAST_SYNC_TIME_KEY with
  | Some (StoredNumber n) => Some n
  | _ => None
  end.

(** The states a service can be in: built by the constructor from the
    storage it finds, then driven by its public methods, by its listener,
    and by collaborators that change on their own. *)
Inductive reachable `{Sv : Services} (stored : gmap string StorageValue)
    : State -> Prop :=
| reach_construct w : reachable stored (construct w stored)
| reach_world st w : reachable stored st -> reachable stored (set_world w st)
| reach_listener st :
    reachable stored st -> reachable stored (onDidChangeStatusListener st)
| reach_pull st : reachable stored st -> reachable stored (snd (pull st))
| reach_push st : reachable stored st -> reachable stored (snd (push st))
| reach_sync st : reachable stored st -> reachable stored (snd (sync st))
| reach_stop st : reachable stored st -> reachable stored (snd (stop st))
| reach_accept st src content :
    reachable stored st -> reachable stored (snd (accept src content st))
| reach_getRemoteContent st src preview :
    reachable stored st ->
    reachable stored (snd (getRemoteContent src preview st))
| reach_resolveContent st key ref :
    reachable stored st -> reachable stored (snd (resolveContent key ref st))
| reach_isFirstTimeSyncWithMerge st :
    reachable stored st -> reachable stored (snd (isFirstTimeSyncWithMerge st))
| reach_reset st : reachable stored st -> reachable stored (snd (reset st))
| reach_resetLocal st :
    reachable stored st -> reachable stored (snd (resetLocal st)).

(** ** Invariants of the service *)

(** [preserves I m]: the method [m] keeps the invariant [I], whether it
    returns or throws. *)
Definition preserves `{Sv : Services} {A : Type} (I : State -> Prop) (m : M A)
    : Prop :=
  forall st, I st -> I (snd (m st)).

(** Every method but [sync]. *)
Definition notSync (m : Method) : Prop :=
  match m with
  | MSync _ => False
  | _ => True
  end.

(** Every method. *)
Definition anyMethod (m : Method) : Prop := True.

(** [Stable allowed I]: the invariant [I] survives every elementary step
    the service is made of, the calls on synchronisers being restricted to
    the methods in [allowed].  The storage is written in three ways only:
    the session id is stored, a key is removed, and
    [updateLastSyncTime] stores the time. *)
Record Stable `{Sv : Services} (allowed : Method -> Prop) (I : State -> Prop)
    : Prop := {
  stable_world : forall st w, I st -> I (set_world w st);
  stable_store : forall st v, I st -> I (storageStore SESSION_ID_KEY v st);
  stable_remove : forall st key, I st -> I (storageRemove key st);
  stable_syncErrors : forall st l, I st -> I (set_syncErrors l st);
  stable_invoke : forall st src m, allowed m -> I st -> I (emit (Invoke src m) st);
  stable_quiet : forall st ev, quietEvent ev -> I st -> I (emit ev st);
  stable_setStatus : forall st s, I st -> I (setStatus s st);
  stable_updateStatus : forall st, I st -> I (updateStatus st);
  stable_updateLastSyncTime : forall st, I st -> I (updateLastSyncTime st)
}.

(** The conflict sources in the world [w]. *)
Definition conflictsIn `{Sv : Services} (w : W) : list SyncSource :=
  map Synchroniser.source
    (List.filter (fun s => bool_decide (Synchroniser.status s w = HasConflicts))
                 synchronisers).

(** The conflict sources the service holds are sources of its
    synchronisers, in the order of the synchronisers. *)
Definition conflictsComputed `{Sv : Services} (st : State) : Prop :=
  sublist (_conflictsSources st) (map Synchroniser.source synchronisers).




(** No call of [sync] was added to those counted in [calls]. *)
Definition syncCallsAre `{Sv : Services} (calls : list (SyncSource * option string))
    (st : State) : Prop :=
  syncInvocations (trace st) = calls.

(** [internal st st']: the step from [st] to [st'] stayed inside the
    service: same world, same error list, and nothing but change
    notifications added to the trace. *)
Definition internal `{Sv : Services} (st st' : State) : Prop :=
  world st' = world st /\
  _syncErrors st' = _syncErrors st /\
  exists evs, trace st' = trace st ++ evs /\ Forall notification evs.

(** ** Shapes of the code the proofs go through *)

(** The common shape of a turn of the loops of [pull], [push] and [sync]:
    the call, its error handed to [handleSyncError] and, in [sync] only
    ([record]), pushed on the error list. *)
Definition guardedCall `{Sv : Services} (record : bool) (s : Synchroniser.t W)
    (m : Method) (call : W -> Outcome W unit) : M unit :=
  try_catch (invoke s m call)
    (fun e =>
       bind (handleSyncError e (Synchroniser.source s))
         (fun _ =>
            if record then
              modify (fun st =>
                set_syncErrors
                  (_syncErrors st ++ [(Synchroniser.source s, toUserDataSyncError e)])
                  st)
            else ret tt)).

(** What the loop of [sync] ([record]) pushes on the error list for the
    errors it caught, the loops of [pull] and [push] pushing nothing. *)
Definition pushed `{Sv : Services} (record : bool)
    (errors : list (SyncSource * JsError)) : list (SyncSource * JsError) :=
  if record then map (fun x => (fst x, toUserDataSyncError (snd x))) errors
  else [].

(** [aside st st']: the step from [st] to [st'] happened beside the
    loops: it left the error list alone, called [sync] on no
    synchroniser and logged no error of a synchroniser. *)
Definition aside `{Sv : Services} (st st' : State) : Prop :=
  _syncErrors st' = _syncErrors st /\
  exists evs, trace st' = trace st ++ evs /\
              syncInvocations evs = [] /\ logged evs = [].

(** The first steps of the [try] block of [sync]: the trace line and,
    unless conflicts are pending, the status set to [Syncing]. *)
Definition syncStarted `{Sv : Services} (st : State) : State :=
  if bool_decide (_status st <> HasConflicts)
  then setStatus Syncing (emit (LogTrace "Sync started.") st)
  else emit (LogTrace "Sync started.") st.

(** ** A scripted environment

    Four synchronisers whose answers are scripted, over a world made of a
    clock and the synchronisers' statuses.  Used to run the service on
    concrete inputs. *)
Module Mock.

Record World : Type := {
  clock : Z;
  statusOf : SyncSource -> SyncStatus
}.

Record Script : Type := {
  storeUrl : option string;
  remoteManifest : option IUserDataManifest;
  failure : SyncSource -> option JsError;
  previouslySynced : SyncSource -> bool;
  localData : SyncSource -> bool
}.

Definition tick (w : World) : World :=
  {| clock := clock w + 1; statusOf := statusOf w |}.

Definition withStatus (src : SyncSource) (s : SyncStatus) (w : World) : World :=
  {| clock := clock w;
     statusOf := fun x => if decide (x = src) then s else statusOf w x |}.

(** A query: answers and lets time pass. *)
Definition answer {A : Type} (a : A) (w : World) : Outcome World A :=
  {| result := Ok a; after := tick w; fired := [] |}.

(** A transfer ([pull], [push], [sync]): the synchroniser shows [Syncing]
    while it runs, then its former status again; it throws what the script
    says. *)
Definition transfer (sc : Script) (src : SyncSource) (w : World)
    : Outcome World unit :=
  {| result := match failure sc src with
               | Some e => Throw e
               | None => Ok tt
               end;
     after := tick w;
     fired := [withStatus src Syncing w; tick w] |}.

Definition resourceKeyOf (src : SyncSource) : ResourceKey :=
  match src with
  | Settings => "settings"
  | Keybindings => "keybindings"
  | GlobalState => "globalState"
  | Extensions => "extensions"
  end.

Definition synchroniser (sc : Script) (src : SyncSource) : Synchroniser.t World :=
  {| Synchroniser.source := src;
     Synchroniser.resourceKey := resourceKeyOf src;
     Synchroniser.status := fun w => statusOf w src;
     Synchroniser.pull := transfer sc src;
     Synchroniser.push := transfer sc src;
     Synchroniser.sync := fun _ => transfer sc src;
     Synchroniser.stop := answer tt;
     Synchroniser.accept := fun _ => answer tt;
     Synchroniser.getRemoteContent := fun _ => answer (Some "remote");
     Synchroniser.resolveContent := fun _ => answer (Some "resolved");
     Synchroniser.hasPreviouslySynced := answer (previouslySynced sc src);
     Synchroniser.hasLocalData := answer (localData sc src);
     Synchroniser.resetLocal := answer tt |}.

(** Position-wise equality of arrays, what [equals] of
    [vs/base/common/arrays] computes: the same length and equal items at
    each index. *)
Definition equalsInOrder (a b : list SyncSource) : bool := bool_decide (a = b).

(** Equality of arrays up to order, the comparison the specification
    describes ("sequence-insensitive equality"). *)
Definition equalsAnyOrder (a b : list SyncSource) : bool := bool_decide (a ≡ₚ b).

Definition services (sc : Script) : Services :=
  {| W := World;
     userDataSyncStoreService :=
       {| StoreService.userDataSyncStore := storeUrl sc;
          StoreService.manifest := fun w => (Ok (remoteManifest sc), tick w);
          StoreService.clear := fun w => (Ok tt, tick w) |};
     synchronisers :=
       map (synchroniser sc) [Settings; Keybindings; GlobalState; Extensions];
     now := clock;
     equals := equalsInOrder;
     toUserDataSyncError := fun e =>
       match e with
       | Error m => UserDataSyncError m (OtherCode "Unknown")
       | _ => e
       end |}.

(** A world at time [t] where every synchroniser has the status [f]
    gives it. *)
Definition worldAt (t : Z) (f : SyncSource -> SyncStatus) : World :=
  {| clock := t; statusOf := f |}.

Definition allIdle : SyncSource -> SyncStatus := fun _ => Idle.

(** A service state over the script [sc]. *)
Definition state (sc : Script) (status : SyncStatus) (conflicts : list SyncSource)
    (stored : gmap string StorageValue) (w : World) : @State (services sc) :=
  @mkState (services sc) status conflicts [] None stored w [].

(** A service just built over the script [sc], at time 0, every
    synchroniser idle, with [stored] in the storage. *)
Definition fresh (sc : Script) (stored : gmap string StorageValue)
    : @State (services sc) :=
  @construct (services sc) (worldAt 0 allIdle) stored.

(** A service built over the script [sc] while the synchroniser [src] had
    conflicts, at the moment [src] has left them for the status [s]. *)
Definition leavingConflicts (sc : Script) (src : SyncSource) (s : SyncStatus)
    : @State (services sc) :=
  @set_world (services sc) (withStatus src s (worldAt 1 allIdle))
    (@construct (services sc) (withStatus src HasConflicts (worldAt 0 allIdle)) ∅).

(** The script in which every synchroniser succeeds: the store is
    configured and holds a manifest of session ["B"]. *)
Definition healthy : Script :=
  {| storeUrl := Some "https://sync.example";
     remoteManifest := Some {| session := "B"; latest := None |};
     failure := fun _ => None;
     previouslySynced := fun _ => false;
     localData := fun _ => true |}.

(** The store is not configured. *)
Definition unconfigured : Script :=
  {| storeUrl := None;
     remoteManifest := remoteManifest healthy;
     failure := failure healthy;
     previouslySynced := previouslySynced healthy;
     localData := localData healthy |}.

(** The synchroniser [src] throws [e] from its transfers. *)
Definition failing (src : SyncSource) (e : JsError) : Script :=
  {| storeUrl := storeUrl healthy;
     remoteManifest := remoteManifest healthy;
     failure := fun x => if decide (x = src) then Some e else None;
     previouslySynced := previouslySynced healthy;
     localData := localData healthy |}.

(** Two synchronisers throw from their transfers: [src1] throws [e1] and
    [src2] throws [e2]. *)
Definition failingBoth (src1 : SyncSource) (e1 : JsError)
    (src2 : SyncSource) (e2 : JsError) : Script :=
  {| storeUrl := storeUrl healthy;
     remoteManifest := remoteManifest healthy;
     failure := fun x => if decide (x = src1) then Some e1
                         else if decide (x = src2) then Some e2 else None;
     previouslySynced := previouslySynced healthy;
     localData := localData healthy |}.

(** The remote holds no manifest and the keybindings synchroniser has
    synced before. *)
Definition turnedOff : Script :=
  {| storeUrl := storeUrl healthy;
     remoteManifest := None;
     failure := failure healthy;
     previouslySynced := fun x => bool_decide (x = Keybindings);
     localData := localData healthy |}.

End Mock.


(** ** More vocabulary: what a method calls, what it stores *)

(** Since the trace was [base], the service only added to it, and called
    on synchronisers only methods in [allowed]. *)
Definition callsOnly `{Sv : Services} (allowed : Method -> Prop)
    (base : list Event) (st : State) : Prop :=
  exists evs,
    trace st = base ++ evs /\
    Forall (fun ev => match ev with
                      | Invoke _ m => allowed m
                      | _ => True
                      end) evs.

(** The methods [sync] calls. *)
Definition syncKind (m : Method) : Prop :=
  m = MHasPreviouslySynced \/ exists r, m = MSync r.

(** The methods [isFirstTimeSyncWithMerge] calls. *)
Definition firstTimeKind (m : Method) : Prop :=
  m = MHasPreviouslySynced \/ m = MHasLocalData.

(** What the storage holds under the session key. *)
Definition sessionIdStored `{Sv : Services} (v : option StorageValue)
    (st : State) : Prop :=
  storage st !! SESSION_ID_KEY = v.

(** The reducer the auto-sync service gives to [Event.debounce]:
    [(last, source) => last ? [...last, source] : [source]].  An array,
    even empty, is truthy. *)
Definition mergeSources (last : option (list string)) (source : string)
    : list string :=
  match last with
  | Some l => l ++ [source]
  | None => [source]
  end.

(** What a service whose store is not configured looks like, built from
    the storage [stored]: never initialised, nothing stored, no error, the
    time it found, and a trace made of conflict notifications and of
    calls of [resolveContent] only. *)
Definition inert `{Sv : Services} (stored : gmap string StorageValue)
    (st : State) : Prop :=
  _status st = Uninitialized /\
  storage st = stored /\
  _syncErrors st = [] /\
  _lastSyncTime st = initialLastSyncTime stored /\
  Forall (fun ev => match ev with
                    | DidChangeConflicts _ | Invoke _ (MResolveContent _) => True
                    | _ => False
                    end) (trace st).

(** What [Event.debounce] (of vs/base/common/event.ts) makes of a burst
    of events with a reducer: the reducer is given the value merged so
    far, [undefined] at the first event of the burst. *)
Definition mergeBurst (sources : list string) : option (list string) :=
  fold_left (fun last source => Some (mergeSources last source)) sources None.

(** Stopping a synchroniser of the list does not change the status of
    the others. *)
Definition stopsAreIndependent {W : Type} (l : list (Synchroniser.t W)) : Prop :=
  forall s s', s ∈ l -> s' ∈ l -> s <> s' ->
    forall w, Synchroniser.status s' (after (Synchroniser.stop s w))
              = Synchroniser.status s' w.

(** ** A hostile environment

    Synchronisers that stay busy and throw from every call, and a store
    whose requests throw. *)
Module Faulty.

Definition offline : JsError := Error "offline".

Definition failed {A : Type} (w : Mock.World) : Outcome Mock.World A :=
  {| result := Throw offline; after := Mock.tick w; fired := [] |}.

Definition synchroniser (src : SyncSource) : Synchroniser.t Mock.World :=
  {| Synchroniser.source := src;
     Synchroniser.resourceKey := Mock.resourceKeyOf src;
     Synchroniser.status := fun _ => Syncing;
     Synchroniser.pull := failed;
     Synchroniser.push := failed;
     Synchroniser.sync := fun _ => failed;
     Synchroniser.stop := failed;
     Synchroniser.accept := fun _ => failed;
     Synchroniser.getRemoteContent := fun _ => failed;
     Synchroniser.resolveContent := fun _ => failed;
     Synchroniser.hasPreviouslySynced := failed;
     Synchroniser.hasLocalData := failed;
     Synchroniser.resetLocal := failed |}.

Definition services : Services :=
  {| W := Mock.World;
     userDataSyncStoreService :=
       {| StoreService.userDataSyncStore := Some "https://sync.example";
          StoreService.manifest := fun w => (Throw offline, Mock.tick w);
          StoreService.clear := fun w => (Throw offline, Mock.tick w) |};
     synchronisers := map synchroniser [Settings; Keybindings; GlobalState; Extensions];
     now := Mock.clock;
     equals := Mock.equalsInOrder;
     toUserDataSyncError := fun e => e |}.

(** A service just built in that environment, with [stored] in the
    storage. *)
Definition fresh (stored : gmap string StorageValue) : @State services :=
  @construct services (Mock.worldAt 0 Mock.allIdle) stored.

End Faulty.

(** A script with a manifest on the remote and a keybindings
    synchroniser that has synced before. *)
Definition syncedBefore : Mock.Script :=
  {| Mock.storeUrl := Mock.storeUrl Mock.healthy;
     Mock.remoteManifest := Mock.remoteManifest Mock.healthy;
     Mock.failure := Mock.failure Mock.healthy;
     Mock.previouslySynced := fun x => bool_decide (x = Keybindings);
     Mock.localData := Mock.localData Mock.healthy |}.

(** * Properties *)

Section Properties.
Context `{Sv : Services}.

(** ** Reading a trace piecewise *)

Lemma invocations_app (a b : list Event) :
  invocations (a ++ b) = invocations a ++ invocations b.
Proof. apply omap_app. Qed.

Lemma syncInvocations_app (a b : list Event) :
  syncInvocations (a ++ b) = syncInvocations a ++ syncInvocations b.
Proof. apply omap_app. Qed.




(** ** Status aggregation *)

Lemma existsb_status (x : SyncStatus) (w : W) (l : list (Synchroniser.t W)) :
  existsb (fun s => bool_decide (Synchroniser.status s w = x)) l
  = bool_decide (x ∈ map (fun s => Synchroniser.status s w) l).
Proof.
  induction l as [|s l IH]; simpl.
  - reflexivity.
  - rewrite IH. destruct (decide (Synchroniser.status s w = x)) as [E|E].
    + rewrite (bool_decide_eq_true_2 _ E). simpl. symmetry.
      apply bool_decide_eq_true. rewrite E. apply list_elem_of_here.
    + rewrite (bool_decide_eq_false_2 _ E). simpl.
      apply bool_decide_ext. rewrite elem_of_cons.
      split; [auto | intros [F|F]; [congruence | exact F]].
Qed.

(** C5. For every tuple of synchroniser statuses the recomputed aggregate
    status is the one the specification words: [Uninitialized] when the
    store is not configured, else [HasConflicts] when some synchroniser
    has conflicts, else [Syncing] when some synchroniser is syncing, else
    [Idle]. *)
Theorem computeStatus_aggregates (st : State) :
  computeStatus st
  = aggregateStatus_spec
      (bool_decide (is_Some (StoreService.userDataSyncStore userDataSyncStoreService)))
      (map (fun s => Synchroniser.status s (world st)) synchronisers).
Proof.
  unfold computeStatus, aggregateStatus_spec.
  destruct (StoreService.userDataSyncStore userDataSyncStoreService) as [url|].
  - rewrite bool_decide_eq_true_2 by eauto. simpl.
    now rewrite !existsb_status.
  - rewrite bool_decide_eq_false_2 by (intros [? ?]; discriminate).
    reflexivity.
Qed.

(** ** The last sync time *)

Lemma updateLastSyncTime_not_Idle (st : State) :
  _status st <> Idle -> updateLastSyncTime st = st.
Proof.
  intros H. unfold updateLastSyncTime.
  now rewrite bool_decide_eq_false_2.
Qed.

Lemma updateLastSyncTime_Idle (st : State) :
  _status st = Idle ->
  updateLastSyncTime st
  = emit (DidChangeLastSyncTime (now (world st)))
      (storageStore LAST_SYNC_TIME_KEY (StoredNumber (now (world st)))
         (set_lastSyncTime (Some (now (world st))) st)).
Proof.
  intros H. unfold updateLastSyncTime.
  now rewrite bool_decide_eq_true_2.
Qed.

Lemma updateLastSyncTime_refreshes (st : State) :
  _status st = Idle -> lastSyncTimeRefreshed st (updateLastSyncTime st).
Proof.
  intros H. rewrite (updateLastSyncTime_Idle _ H).
  unfold lastSyncTimeRefreshed, storageGetNumber. simpl.
  split; [reflexivity|]. split.
  - now rewrite lookup_insert_eq.
  - eexists. split; [reflexivity|]. apply list_elem_of_here.
Qed.

Lemma setStatus_same (st : State) : setStatus (_status st) st = st.
Proof.
  unfold setStatus. now rewrite bool_decide_eq_false_2 by auto.
Qed.

Lemma setStatus_changes (st : State) (s : SyncStatus) :
  _status st <> s ->
  setStatus s st
  = if bool_decide (_status st = HasConflicts)
    then updateLastSyncTime (emit (DidChangeStatus s) (set_status s st))
    else emit (DidChangeStatus s) (set_status s st).
Proof.
  intros H. unfold setStatus. now rewrite bool_decide_eq_true_2.
Qed.

Lemma setStatus_status (st : State) (s : SyncStatus) :
  _status (setStatus s st) = s.
Proof.
  destruct (decide (_status st = s)) as [E|E].
  - subst s. now rewrite setStatus_same.
  - rewrite (setStatus_changes _ _ E).
    case_bool_decide; [|reflexivity].
    unfold updateLastSyncTime. case_bool_decide; reflexivity.
Qed.

(** C2, as the code has it. When the aggregate status leaves
    [HasConflicts], the last sync time is refreshed (set to the current
    time, persisted, notified) if the new status is [Idle]; when the new
    status is [Syncing] or [Uninitialized] the only effect is the status
    change and its notification: the time, the storage and the time
    notifications stay as they were. *)
Theorem setStatus_leaving_HasConflicts (st : State) (s : SyncStatus) :
  _status st = HasConflicts ->
  s <> HasConflicts ->
  (s = Idle -> lastSyncTimeRefreshed st (setStatus s st)) /\
  (s <> Idle ->
     setStatus s st = emit (DidChangeStatus s) (set_status s st) /\
     lastSyncTimeUntouched st (setStatus s st)).
Proof.
  intros Hold Hs.
  assert (Hne : _status st <> s) by congruence.
  rewrite (setStatus_changes _ _ Hne).
  rewrite (bool_decide_eq_true_2 _ Hold).
  split.
  - intros ->.
    rewrite updateLastSyncTime_Idle by reflexivity.
    unfold lastSyncTimeRefreshed, storageGetNumber. simpl.
    split; [reflexivity|]. split.
    + now rewrite lookup_insert_eq.
    + exists [DidChangeStatus Idle; DidChangeLastSyncTime (now (world st))].
      split; [now rewrite <- app_assoc|].
      apply list_elem_of_further, list_elem_of_here.
  - intros Hidle.
    rewrite updateLastSyncTime_not_Idle by (simpl; exact Hidle).
    split; [reflexivity|].
    repeat split; simpl.
    exists [DidChangeStatus s]. split; [reflexivity|].
    intros t Hin. apply list_elem_of_singleton in Hin. discriminate.
Qed.


(** ** Invariants kept by the methods *)

Lemma preserves_ret {A : Type} (I : State -> Prop) (a : A) : preserves I (ret a).
Proof. intros st H. exact H. Qed.

Lemma preserves_throw {A : Type} (I : State -> Prop) (e : JsError) :
  preserves I (@throw _ A e).
Proof. intros st H. exact H. Qed.

Lemma preserves_gets {A : Type} (I : State -> Prop) (f : State -> A) :
  preserves I (gets f).
Proof. intros st H. exact H. Qed.

Lemma preserves_modify (I : State -> Prop) (f : State -> State) :
  (forall st, I st -> I (f st)) -> preserves I (modify f).
Proof. intros Hf st H. apply Hf, H. Qed.

Lemma preserves_bind {A B : Type} (I : State -> Prop) (m : M A) (k : A -> M B) :
  preserves I m -> (forall a, preserves I (k a)) -> preserves I (bind m k).
Proof.
  intros Hm Hk st H. unfold bind.
  specialize (Hm st H). destruct (m st) as [[a|e] st1]; simpl in *.
  - apply Hk, Hm.
  - exact Hm.
Qed.

Lemma preserves_try_catch {A : Type} (I : State -> Prop) (m : M A)
    (h : JsError -> M A) :
  preserves I m -> (forall e, preserves I (h e)) -> preserves I (try_catch m h).
Proof.
  intros Hm Hh st H. unfold try_catch.
  specialize (Hm st H). destruct (m st) as [[a|e] st1]; simpl in *.
  - exact Hm.
  - apply Hh, Hm.
Qed.

Lemma preserves_try_finally {A : Type} (I : State -> Prop) (m : M A)
    (f : M unit) :
  preserves I m -> preserves I f -> preserves I (try_finally m f).
Proof.
  intros Hm Hf st H. unfold try_finally.
  specialize (Hm st H). destruct (m st) as [r st1]; simpl in *.
  specialize (Hf st1 Hm). destruct (f st1) as [[[]|e] st2]; exact Hf.
Qed.

Lemma preserves_forEach {A : Type} (I : State -> Prop) (l : list A)
    (body : A -> M unit) :
  (forall x, preserves I (body x)) -> preserves I (forEach l body).
Proof.
  intros Hb. induction l as [|x l IH]; simpl.
  - apply preserves_ret.
  - apply preserves_bind; [apply Hb | intros _; exact IH].
Qed.

Section Stability.
Variable allowed : Method -> Prop.
Variable I : State -> Prop.
Hypothesis HI : Stable allowed I.

Lemma stable_listener (st : State) : I st -> I (onDidChangeStatusListener st).
Proof.
  intros H. unfold onDidChangeStatusListener.
  destruct (StoreService.userDataSyncStore userDataSyncStoreService);
    [now apply (stable_updateStatus _ _ HI) | exact H].
Qed.

Lemma stable_listeners (ws : list W) (st : State) :
  I st ->
  I (fold_left (fun acc w => onDidChangeStatusListener (set_world w acc)) ws st).
Proof.
  revert st. induction ws as [|w ws IH]; intros st H; simpl; [exact H|].
  apply IH, stable_listener. now apply (stable_world _ _ HI).
Qed.

Lemma preserves_invoke {A : Type} (s : Synchroniser.t W) (m : Method)
    (call : W -> Outcome W A) :
  allowed m -> preserves I (invoke s m call).
Proof.
  intros Hm st H. unfold invoke. simpl.
  apply (stable_world _ _ HI), stable_listeners.
  now apply (stable_invoke _ _ HI).
Qed.

Lemma preserves_fetchManifest : preserves I fetchManifest.
Proof.
  intros st H. unfold fetchManifest.
  destruct (StoreService.manifest userDataSyncStoreService (world st)) as [r w].
  simpl. apply (stable_world _ _ HI).
  now apply (stable_quiet _ _ HI).
Qed.

Lemma preserves_clearStore : preserves I clearStore.
Proof.
  intros st H. unfold clearStore.
  destruct (StoreService.clear userDataSyncStoreService (world st)) as [r w].
  simpl. apply (stable_world _ _ HI).
  now apply (stable_quiet _ _ HI).
Qed.

Lemma preserves_checkEnablement : preserves I checkEnablement.
Proof.
  unfold checkEnablement.
  destruct (StoreService.userDataSyncStore userDataSyncStoreService);
    [apply preserves_ret | apply preserves_throw].
Qed.

Lemma preserves_emit (ev : Event) : quietEvent ev -> preserves I (modify (emit ev)).
Proof.
  intros Hq. apply preserves_modify. intros st. now apply (stable_quiet _ _ HI).
Qed.

Lemma preserves_updateLastSyncTime : preserves I (modify updateLastSyncTime).
Proof. apply preserves_modify, (stable_updateLastSyncTime _ _ HI). Qed.

Lemma preserves_hasPreviouslySyncedFrom (l : list (Synchroniser.t W)) :
  allowed MHasPreviouslySynced -> preserves I (hasPreviouslySyncedFrom l).
Proof.
  intros Hm. induction l as [|s l IH]; simpl; [apply preserves_ret|].
  apply preserves_bind; [now apply preserves_invoke|].
  intros [|]; [apply preserves_ret | exact IH].
Qed.

Lemma preserves_hasLocalDataFrom (l : list (Synchroniser.t W)) :
  allowed MHasLocalData -> preserves I (hasLocalDataFrom l).
Proof.
  intros Hm. induction l as [|s l IH]; simpl; [apply preserves_ret|].
  apply preserves_bind; [now apply preserves_invoke|].
  intros [|]; [apply preserves_ret | exact IH].
Qed.

Lemma preserves_getRemoteContentFrom (l : list (Synchroniser.t W))
    (src : SyncSource) (preview : bool) :
  allowed (MGetRemoteContent preview) ->
  preserves I (getRemoteContentFrom l src preview).
Proof.
  intros Hm. induction l as [|s l IH]; simpl; [apply preserves_ret|].
  case_bool_decide; [now apply preserves_invoke | exact IH].
Qed.

(** A method is a composition of the steps above: its invariant follows
    the shape of its code. *)
Ltac keeps :=
  repeat match goal with
  | |- preserves _ (ret _) => apply preserves_ret
  | |- preserves _ (throw _) => apply preserves_throw
  | |- preserves _ (gets _) => apply preserves_gets
  | |- preserves _ (bind _ _) => apply preserves_bind; [|intros ?]
  | |- preserves _ (try_catch _ _) => apply preserves_try_catch; [|intros ?]
  | |- preserves _ (try_finally _ _) => apply preserves_try_finally
  | |- preserves _ (forEach _ _) => apply preserves_forEach; intros ?
  | |- preserves _ (invoke _ _ _) => apply preserves_invoke; solve [auto]
  | |- preserves _ checkEnablement => apply preserves_checkEnablement
  | |- preserves _ fetchManifest => apply preserves_fetchManifest
  | |- preserves _ clearStore => apply preserves_clearStore
  | |- preserves _ (hasPreviouslySyncedFrom _) =>
    apply preserves_hasPreviouslySyncedFrom; assumption
  | |- preserves _ (hasLocalDataFrom _) =>
    apply preserves_hasLocalDataFrom; assumption
  | |- preserves _ (getRemoteContentFrom _ _ _) =>
    apply preserves_getRemoteContentFrom; assumption
  | |- preserves _ (modify (emit _)) => apply preserves_emit; exact Logic.I
  | |- preserves _ (modify updateLastSyncTime) => apply preserves_updateLastSyncTime
  | |- preserves _ (modify _) =>
    apply preserves_modify; intros ?;
    first [ apply (stable_setStatus _ _ HI)
          | apply (stable_updateStatus _ _ HI)
          | apply (stable_store _ _ HI)
          | apply (stable_remove _ _ HI)
          | apply (stable_syncErrors _ _ HI) ]
  | |- preserves _ (if ?b then _ else _) => destruct b
  | |- preserves _ (match ?x with _ => _ end) => destruct x
  end.

Lemma preserves_handleSyncError (e : JsError) (src : SyncSource) :
  preserves I (handleSyncError e src).
Proof. unfold handleSyncError. keeps. Qed.

Lemma preserves_pull : allowed MPull -> preserves I pull.
Proof.
  intros Hm. unfold pull, pullOne. keeps. apply preserves_handleSyncError.
Qed.

Lemma preserves_push : allowed MPush -> preserves I push.
Proof.
  intros Hm. unfold push, pushOne. keeps. apply preserves_handleSyncError.
Qed.

Lemma preserves_syncPrelude :
  allowed MHasPreviouslySynced -> preserves I syncPrelude.
Proof. intros Hm. unfold syncPrelude, hasPreviouslySynced. keeps. Qed.

Lemma preserves_syncFinally : preserves I syncFinally.
Proof. unfold syncFinally. keeps. Qed.

Lemma preserves_sync :
  allowed MHasPreviouslySynced -> (forall r, allowed (MSync r)) ->
  preserves I sync.
Proof.
  intros Hp Hs. unfold sync. keeps; [|apply preserves_syncFinally].
  unfold syncRound. keeps.
  - now apply preserves_syncPrelude.
  - unfold syncLoop, syncOne. keeps. apply preserves_handleSyncError.
  - unfold syncEpilogue. keeps.
Qed.

Lemma preserves_stop : allowed MStop -> preserves I stop.
Proof. intros Hm. unfold stop. keeps. Qed.

Lemma preserves_accept (src : SyncSource) (content : string) :
  allowed (MAccept content) -> preserves I (accept src content).
Proof. intros Hm. unfold accept. keeps. Qed.

Lemma preserves_getRemoteContent (src : SyncSource) (preview : bool) :
  allowed (MGetRemoteContent preview) ->
  preserves I (getRemoteContent src preview).
Proof. intros Hm. unfold getRemoteContent. keeps. Qed.

Lemma preserves_resolveContent (key : ResourceKey) (ref : string) :
  allowed (MResolveContent ref) -> preserves I (resolveContent key ref).
Proof. intros Hm. unfold resolveContent. keeps. Qed.

Lemma preserves_isFirstTimeSyncWithMerge :
  allowed MHasPreviouslySynced -> allowed MHasLocalData ->
  preserves I isFirstTimeSyncWithMerge.
Proof.
  intros Hp Hl. unfold isFirstTimeSyncWithMerge, hasPreviouslySynced, hasLocalData.
  keeps.
Qed.

Lemma preserves_resetLocal : allowed MResetLocal -> preserves I resetLocal.
Proof. intros Hm. unfold resetLocal. keeps. Qed.

Lemma preserves_reset : allowed MResetLocal -> preserves I reset.
Proof.
  intros Hm. unfold reset, resetRemote. keeps. now apply preserves_resetLocal.
Qed.

End Stability.

(** *** The trace accounts for the status and the time *)






(** *** The conflict sources held were computed from the synchronisers *)

Lemma computeConflictsSources_world (st : State) :
  computeConflictsSources st = conflictsIn (world st).
Proof. reflexivity. Qed.

Lemma conflictsIn_sublist (w : W) :
  sublist (conflictsIn w) (map Synchroniser.source synchronisers).
Proof.
  unfold conflictsIn. induction synchronisers as [|s l IH]; simpl.
  - constructor.
  - case_bool_decide; simpl; [now apply sublist_skip | now apply sublist_cons].
Qed.

Lemma conflictsComputed_updateLastSyncTime (st : State) :
  conflictsComputed st -> conflictsComputed (updateLastSyncTime st).
Proof.
  intros H. unfold updateLastSyncTime. case_bool_decide; exact H.
Qed.

Lemma conflictsComputed_setStatus (s : SyncStatus) (st : State) :
  conflictsComputed st -> conflictsComputed (setStatus s st).
Proof.
  intros H. unfold setStatus. case_bool_decide; [|exact H].
  case_bool_decide; [|exact H].
  now apply conflictsComputed_updateLastSyncTime.
Qed.

Lemma conflictsComputed_updateStatus (st : State) :
  conflictsComputed st -> conflictsComputed (updateStatus st).
Proof.
  intros H. unfold updateStatus. apply conflictsComputed_setStatus.
  destruct (negb _); [|exact H].
  apply conflictsIn_sublist.
Qed.

Lemma conflictsComputed_stable : Stable anyMethod conflictsComputed.
Proof.
  split.
  - intros st w H. exact H.
  - intros st v H. exact H.
  - intros st key H. exact H.
  - intros st l H. exact H.
  - intros st src m _ H. exact H.
  - intros st ev _ H. exact H.
  - intros st s. apply conflictsComputed_setStatus.
  - intros st. apply conflictsComputed_updateStatus.
  - intros st. apply conflictsComputed_updateLastSyncTime.
Qed.

(** *** The conflict sources held are those last notified *)







(** *** The time key of the storage follows the notifications *)







(** *** No call of [sync] is made outside the loop of [sync] *)

Lemma syncCallsAre_emit (calls : list (SyncSource * option string))
    (ev : Event) (st : State) :
  match ev with
  | Invoke _ (MSync _) => False
  | _ => True
  end ->
  syncCallsAre calls st -> syncCallsAre calls (emit ev st).
Proof.
  unfold syncCallsAre. simpl. intros Hev H.
  rewrite syncInvocations_app, H.
  destruct ev as [src []| | | | | | | | | | |]; try contradiction;
    simpl; apply app_nil_r.
Qed.

Lemma syncCallsAre_updateLastSyncTime (calls : list (SyncSource * option string))
    (st : State) :
  syncCallsAre calls st -> syncCallsAre calls (updateLastSyncTime st).
Proof.
  intros H. unfold updateLastSyncTime. case_bool_decide; [|exact H].
  apply syncCallsAre_emit; [exact Logic.I | exact H].
Qed.

Lemma syncCallsAre_setStatus (calls : list (SyncSource * option string))
    (s : SyncStatus) (st : State) :
  syncCallsAre calls st -> syncCallsAre calls (setStatus s st).
Proof.
  intros H. unfold setStatus. case_bool_decide; [|exact H].
  assert (Hk : syncCallsAre calls (emit (DidChangeStatus s) (set_status s st)))
    by (apply syncCallsAre_emit; [exact Logic.I | exact H]).
  case_bool_decide; [now apply syncCallsAre_updateLastSyncTime | exact Hk].
Qed.

Lemma syncCallsAre_updateStatus (calls : list (SyncSource * option string))
    (st : State) :
  syncCallsAre calls st -> syncCallsAre calls (updateStatus st).
Proof.
  intros H. unfold updateStatus. apply syncCallsAre_setStatus.
  destruct (negb _); [|exact H].
  apply syncCallsAre_emit; [exact Logic.I | exact H].
Qed.

Lemma syncCallsAre_stable (calls : list (SyncSource * option string)) :
  Stable notSync (syncCallsAre calls).
Proof.
  split.
  - intros st w H. exact H.
  - intros st v H. exact H.
  - intros st key H. exact H.
  - intros st l H. exact H.
  - intros st src m Hm H. apply syncCallsAre_emit; [|exact H].
    destruct m; simpl in *; auto.
  - intros st ev Hq H. apply syncCallsAre_emit; [|exact H].
    destruct ev; simpl in *; auto; contradiction.
  - intros st s. apply syncCallsAre_setStatus.
  - intros st. apply syncCallsAre_updateStatus.
  - intros st. apply syncCallsAre_updateLastSyncTime.
Qed.

(** *** What holds of every reachable state *)

Lemma reachable_invariant (stored : gmap string StorageValue)
    (Inv : State -> Prop) :
  Stable anyMethod Inv ->
  (forall w, Inv (construct w stored)) ->
  forall st, reachable stored st -> Inv st.
Proof.
  intros HI Hinit st Hr.
  induction Hr.
  - apply Hinit.
  - now apply (stable_world _ _ HI).
  - now apply (stable_listener _ _ HI).
  - now apply (preserves_pull _ _ HI).
  - now apply (preserves_push _ _ HI).
  - now apply (preserves_sync _ _ HI).
  - now apply (preserves_stop _ _ HI).
  - now apply (preserves_accept _ _ HI).
  - now apply (preserves_getRemoteContent _ _ HI).
  - now apply (preserves_resolveContent _ _ HI).
  - now apply (preserves_isFirstTimeSyncWithMerge _ _ HI).
  - now apply (preserves_reset _ _ HI).
  - now apply (preserves_resetLocal _ _ HI).
Qed.


Lemma construct_conflictsComputed (stored : gmap string StorageValue) (w : W) :
  conflictsComputed (construct w stored).
Proof.
  unfold construct.
  apply (conflictsComputed_updateStatus (mkState Uninitialized [] [] None stored w [])).
  apply sublist_nil_l.
Qed.

Lemma reachable_conflictsComputed (stored : gmap string StorageValue) (st : State) :
  reachable stored st -> conflictsComputed st.
Proof.
  apply reachable_invariant;
    [apply conflictsComputed_stable | apply construct_conflictsComputed].
Qed.







(** ** What the synchronous methods leave alone *)

Lemma emitted_app (st st' : State) (evs : list Event) :
  trace st' = trace st ++ evs -> emitted st st' = evs.
Proof. intros H. unfold emitted. rewrite H. apply drop_app_length. Qed.

Lemma invocations_notifications (evs : list Event) :
  Forall notification evs -> invocations evs = [].
Proof.
  induction 1 as [|ev evs Hev _ IH]; [reflexivity|].
  destruct ev; try contradiction; exact IH.
Qed.

Lemma syncInvocations_notifications (evs : list Event) :
  Forall notification evs -> syncInvocations evs = [].
Proof.
  induction 1 as [|ev evs Hev _ IH]; [reflexivity|].
  destruct ev; try contradiction; exact IH.
Qed.

Lemma internal_refl (st : State) : internal st st.
Proof.
  repeat split. exists []. split; [now rewrite app_nil_r | constructor].
Qed.

Lemma internal_trans (a b c : State) : internal a b -> internal b c -> internal a c.
Proof.
  intros (Hw1 & He1 & evs1 & Ht1 & Hn1) (Hw2 & He2 & evs2 & Ht2 & Hn2).
  split; [congruence|]. split; [congruence|].
  exists (evs1 ++ evs2). split.
  - now rewrite Ht2, Ht1, app_assoc.
  - now apply Forall_app.
Qed.

Lemma internal_notify (ev : Event) (f : State -> State) (st : State) :
  notification ev ->
  world (f st) = world st -> _syncErrors (f st) = _syncErrors st ->
  trace (f st) = trace st ->
  internal st (emit ev (f st)).
Proof.
  intros Hn Hw He Ht. repeat split; simpl; try assumption.
  exists [ev]. split; [now rewrite Ht | now repeat constructor].
Qed.

Lemma internal_updateLastSyncTime (st : State) : internal st (updateLastSyncTime st).
Proof.
  unfold updateLastSyncTime. case_bool_decide; [|apply internal_refl].
  now apply (internal_notify _
    (fun st => storageStore LAST_SYNC_TIME_KEY (StoredNumber (now (world st)))
                 (set_lastSyncTime (Some (now (world st))) st))).
Qed.

Lemma internal_setStatus (s : SyncStatus) (st : State) : internal st (setStatus s st).
Proof.
  unfold setStatus. case_bool_decide; [|apply internal_refl].
  assert (H1 : internal st (emit (DidChangeStatus s) (set_status s st)))
    by now apply (internal_notify _ (set_status s)).
  case_bool_decide; [|exact H1].
  eapply internal_trans; [exact H1 | apply internal_updateLastSyncTime].
Qed.

Lemma internal_updateStatus (st : State) : internal st (updateStatus st).
Proof.
  unfold updateStatus.
  destruct (negb _).
  - eapply internal_trans; [|apply internal_setStatus].
    now apply (internal_notify _ (set_conflictsSources (computeConflictsSources st))).
  - apply internal_setStatus.
Qed.

Lemma world_setStatus (s : SyncStatus) (st : State) :
  world (setStatus s st) = world st.
Proof. apply internal_setStatus. Qed.

Lemma world_updateStatus (st : State) : world (updateStatus st) = world st.
Proof. apply internal_updateStatus. Qed.

Lemma syncErrors_updateStatus (st : State) :
  _syncErrors (updateStatus st) = _syncErrors st.
Proof. apply internal_updateStatus. Qed.

Lemma computeStatus_world (st st' : State) :
  world st' = world st -> computeStatus st' = computeStatus st.
Proof. intros H. unfold computeStatus. now rewrite H. Qed.

Lemma updateStatus_status (st : State) :
  _status (updateStatus st) = computeStatus (updateStatus st).
Proof.
  rewrite (computeStatus_world st) by apply world_updateStatus.
  unfold updateStatus. rewrite setStatus_status.
  apply computeStatus_world. now destruct (negb _).
Qed.

(** ** Calls on synchronisers *)

(** What the listener does with the status changes fired during a call:
    it only recomputes the service's own view.  The error list is
    untouched and the trace gains notifications only. *)
Lemma listeners_internal (ws : list W) (st : State) :
  let st' := fold_left (fun acc w => onDidChangeStatusListener (set_world w acc))
                       ws st in
  _syncErrors st' = _syncErrors st /\
  exists evs, trace st' = trace st ++ evs /\ Forall notification evs.
Proof.
  revert st. induction ws as [|w ws IH]; intros st; simpl.
  - split; [reflexivity|]. exists []. split; [now rewrite app_nil_r | constructor].
  - destruct (IH (onDidChangeStatusListener (set_world w st)))
      as (He & evs & Ht & Hn).
    assert (Hl : internal (set_world w st) (onDidChangeStatusListener (set_world w st))).
    { unfold onDidChangeStatusListener.
      destruct (StoreService.userDataSyncStore userDataSyncStoreService);
        [apply internal_updateStatus | apply internal_refl]. }
    destruct Hl as (_ & He1 & evs1 & Ht1 & Hn1).
    split; [now rewrite He, He1|].
    exists (evs1 ++ evs). split.
    + rewrite Ht, Ht1. simpl. now rewrite app_assoc.
    + now apply Forall_app.
Qed.

Lemma invoke_result {A : Type} (s : Synchroniser.t W) (m : Method)
    (call : W -> Outcome W A) (st : State) :
  fst (invoke s m call st) = result (call (world st)).
Proof. reflexivity. Qed.

Lemma invoke_world {A : Type} (s : Synchroniser.t W) (m : Method)
    (call : W -> Outcome W A) (st : State) :
  world (snd (invoke s m call st)) = after (call (world st)).
Proof. reflexivity. Qed.

Lemma invoke_syncErrors {A : Type} (s : Synchroniser.t W) (m : Method)
    (call : W -> Outcome W A) (st : State) :
  _syncErrors (snd (invoke s m call st)) = _syncErrors st.
Proof.
  unfold invoke. simpl.
  destruct (listeners_internal (fired (call (world st)))
              (emit (Invoke (Synchroniser.source s) m) st)) as (He & _).
  exact He.
Qed.

Lemma invoke_trace {A : Type} (s : Synchroniser.t W) (m : Method)
    (call : W -> Outcome W A) (st : State) :
  exists evs,
    trace (snd (invoke s m call st))
    = trace st ++ Invoke (Synchroniser.source s) m :: evs /\
    Forall notification evs.
Proof.
  unfold invoke. simpl.
  destruct (listeners_internal (fired (call (world st)))
              (emit (Invoke (Synchroniser.source s) m) st)) as (_ & evs & Ht & Hn).
  exists evs. split; [|exact Hn].
  rewrite Ht. simpl. now rewrite <- app_assoc.
Qed.

Lemma invoke_invocations {A : Type} (s : Synchroniser.t W) (m : Method)
    (call : W -> Outcome W A) (st : State) :
  invocations (trace (snd (invoke s m call st)))
  = invocations (trace st) ++ [(Synchroniser.source s, m)].
Proof.
  destruct (invoke_trace s m call st) as (evs & Ht & Hn).
  rewrite Ht, invocations_app. simpl.
  now rewrite (invocations_notifications _ Hn).
Qed.

(** ** One guarded call *)

Lemma pullOne_guarded (s : Synchroniser.t W) (st : State) :
  pullOne s st = guardedCall false s MPull (Synchroniser.pull s) st.
Proof.
  unfold pullOne, guardedCall, try_catch.
  destruct (invoke s MPull (Synchroniser.pull s) st) as [[a|e] st1];
    [reflexivity|].
  unfold bind. destruct (handleSyncError e (Synchroniser.source s) st1)
    as [[[]|e'] st2]; reflexivity.
Qed.

Lemma pushOne_guarded (s : Synchroniser.t W) (st : State) :
  pushOne s st = guardedCall false s MPush (Synchroniser.push s) st.
Proof.
  unfold pushOne, guardedCall, try_catch.
  destruct (invoke s MPush (Synchroniser.push s) st) as [[a|e] st1];
    [reflexivity|].
  unfold bind. destruct (handleSyncError e (Synchroniser.source s) st1)
    as [[[]|e'] st2]; reflexivity.
Qed.

(** A store error is rethrown, after the telemetry event when its code is
    [TooLarge]. *)
Lemma handleSyncError_store (e : JsError) (src : SyncSource) (st : State) :
  instanceofUserDataSyncStoreError e = true ->
  exists st',
    handleSyncError e src st = (Throw e, st') /\
    world st' = world st /\ _syncErrors st' = _syncErrors st /\
    invocations (trace st') = invocations (trace st) /\
    trace st'
    = trace st ++ match e with
                  | UserDataSyncStoreError _ TooLarge =>
                    [Telemetry "sync/errorTooLarge" src]
                  | _ => []
                  end.
Proof.
  destruct e as [msg|msg code|msg code]; try discriminate. intros _.
  destruct code; eexists; (split; [reflexivity|]); simpl;
    rewrite ?app_nil_r, ?invocations_app; simpl; rewrite ?app_nil_r; auto.
Qed.

(** Any other error is logged, twice, and swallowed. *)
Lemma handleSyncError_other (e : JsError) (src : SyncSource) (st : State) :
  instanceofUserDataSyncStoreError e = false ->
  handleSyncError e src st
  = (Ok tt, emit (LogSourceError src e) (emit (LogError e) st)).
Proof. destruct e; try discriminate; reflexivity. Qed.

(** ** Reading what a loop left in the trace *)

Lemma logged_app (a b : list Event) : logged (a ++ b) = logged a ++ logged b.
Proof. apply omap_app. Qed.

Lemma logged_notifications (evs : list Event) :
  Forall notification evs -> logged evs = [].
Proof.
  induction 1 as [|ev evs Hev _ IH]; [reflexivity|].
  destruct ev; try contradiction; exact IH.
Qed.

(** The calls of [sync] are read off the calls. *)
Lemma syncInvocations_invocations (evs : list Event) :
  syncInvocations evs
  = omap (fun c => match snd c with
                   | MSync r => Some (fst c, r)
                   | _ => None
                   end) (invocations evs).
Proof.
  induction evs as [|ev evs IH]; [reflexivity|].
  destruct ev as [src []| | | | | | | | | | |]; simpl; now rewrite ?IH.
Qed.

Lemma caught_app (a b : list (Synchroniser.t W * Result unit)) :
  caught (a ++ b) = caught a ++ caught b.
Proof. apply omap_app. Qed.

Lemma pushed_app (record : bool) (a b : list (SyncSource * JsError)) :
  pushed record (a ++ b) = pushed record a ++ pushed record b.
Proof. unfold pushed. destruct record; [apply map_app | reflexivity]. Qed.

Section Guarded.
Variable record : bool.
Variable meth : Synchroniser.t W -> Method.
Variable call : Synchroniser.t W -> W -> Outcome W unit.


(** ** The loops *)


(** One turn of a loop, whatever the synchroniser answers: the turn ends
    as the answer says, in the world the call left; the call is in the
    trace; an error that is not a store error is logged with its source
    and, in [sync], pushed on the error list. *)
Lemma guardedCall_turn (s : Synchroniser.t W) (st : State) :
  exists st',
    guardedCall record s (meth s) (call s) st
    = (loopResult [(s, result (call s (world st)))], st') /\
    world st' = after (call s (world st)) /\
    _syncErrors st'
    = _syncErrors st ++ pushed record (caught [(s, result (call s (world st)))]) /\
    exists evs,
      trace st' = trace st ++ evs /\
      invocations evs = [(Synchroniser.source s, meth s)] /\
      logged evs = caught [(s, result (call s (world st)))].
Proof.
  unfold guardedCall, try_catch.
  pose proof (invoke_result s (meth s) (call s) st) as Hr.
  pose proof (invoke_world s (meth s) (call s) st) as Hw.
  pose proof (invoke_syncErrors s (meth s) (call s) st) as Hs.
  destruct (invoke_trace s (meth s) (call s) st) as (evs & Ht & Hn).
  destruct (invoke s (meth s) (call s) st) as [r st1]. simpl in Hr, Hw, Hs, Ht.
  subst r.
  assert (Hi : invocations (Invoke (Synchroniser.source s) (meth s) :: evs)
               = [(Synchroniser.source s, meth s)]).
  { simpl. now rewrite (invocations_notifications _ Hn). }
  assert (Hl : logged (Invoke (Synchroniser.source s) (meth s) :: evs) = [])
    by (simpl; apply (logged_notifications _ Hn)).
  destruct (result (call s (world st))) as [[]|e] eqn:Hres.
  - exists st1. split; [reflexivity|]. split; [exact Hw|].
    split; [unfold pushed; destruct record; simpl; now rewrite app_nil_r|].
    eexists. split; [exact Ht|]. split; [exact Hi | exact Hl].
  - unfold loopResult, caught. simpl.
    destruct (instanceofUserDataSyncStoreError e) eqn:He.
    + destruct (handleSyncError_store e (Synchroniser.source s) st1 He)
        as (st2 & Hh & Hw2 & Hs2 & _ & Ht2).
      unfold bind. rewrite Hh. exists st2.
      split; [reflexivity|]. split; [congruence|].
      split; [unfold pushed; destruct record; simpl; rewrite app_nil_r; congruence|].
      eexists. split; [rewrite Ht2, Ht, <- app_assoc; reflexivity|].
      rewrite invocations_app, logged_app, Hi, Hl.
      destruct e as [?|? ?|? []]; simpl; split; reflexivity.
    + unfold bind. rewrite (handleSyncError_other _ _ _ He).
      unfold pushed. destruct record; eexists; (split; [reflexivity|]);
        (split; [exact Hw|]);
        (split; [simpl; rewrite ?app_nil_r, Hs; reflexivity|]);
        exists ((Invoke (Synchroniser.source s) (meth s) :: evs)
                ++ [LogError e; LogSourceError (Synchroniser.source s) e]);
        (split; [simpl; rewrite Ht, <- !app_assoc; reflexivity|]);
        rewrite invocations_app, logged_app, Hi, Hl; split; reflexivity.
Qed.

(** A whole loop of guarded calls does what the specification says of
    the synchronisers asked in turn: it ends as their answers say, and
    the calls made, the errors logged and the errors pushed on the error
    list are read off the answers. *)
Lemma guarded_loop_asked (l : list (Synchroniser.t W)) (st : State) :
  exists st',
    forEach l (fun s => guardedCall record s (meth s) (call s)) st
    = (loopResult (asked call l (world st)), st') /\
    _syncErrors st'
    = _syncErrors st ++ pushed record (caught (asked call l (world st))) /\
    exists evs,
      trace st' = trace st ++ evs /\
      invocations evs
      = map (fun x => (Synchroniser.source (fst x), meth (fst x)))
            (asked call l (world st)) /\
      logged evs = caught (asked call l (world st)).
Proof.
  revert st. induction l as [|s l IH]; intros st.
  - exists st. split; [reflexivity|].
    split; [unfold pushed; destruct record; simpl; now rewrite app_nil_r|].
    exists []. now rewrite app_nil_r.
  - destruct (guardedCall_turn s st) as (st1 & Hb & Hw1 & He1 & evs1 & Ht1 & Hi1 & Hl1).
    cbn [forEach asked]. unfold bind. rewrite Hb.
    unfold loopResult in *. cbn [propagated] in *.
    destruct (result (call s (world st))) as [[]|e] eqn:Hres; cbn [endsLoop].
    + destruct (IH st1) as (st2 & Hloop & He2 & evs2 & Ht2 & Hi2 & Hl2).
      rewrite Hw1 in *. rewrite Hloop. exists st2. split; [reflexivity|].
      split.
      { rewrite He2, He1.
        change ((Synchroniser.source s, ?x) :: ?r) with r.
        rewrite <- app_assoc, <- pushed_app. reflexivity. }
      exists (evs1 ++ evs2).
      split; [rewrite Ht2, Ht1, <- app_assoc; reflexivity|].
      rewrite invocations_app, logged_app, Hi1, Hi2, Hl1, Hl2.
      split; reflexivity.
    + destruct (instanceofUserDataSyncStoreError e) eqn:He.
      * exists st1. split; [reflexivity|]. split; [exact He1|].
        exists evs1. split; [exact Ht1|]. split; [exact Hi1 | exact Hl1].
      * destruct (IH st1) as (st2 & Hloop & He2 & evs2 & Ht2 & Hi2 & Hl2).
        rewrite Hw1 in *. rewrite Hloop. exists st2. split; [reflexivity|].
        split.
        { rewrite He2, He1, <- app_assoc, <- pushed_app.
          rewrite <- caught_app. reflexivity. }
        exists (evs1 ++ evs2).
        split; [rewrite Ht2, Ht1, <- app_assoc; reflexivity|].
        rewrite invocations_app, logged_app, Hi1, Hi2, Hl1, Hl2.
        rewrite <- caught_app. split; reflexivity.
Qed.

End Guarded.
(** ** The synchronisers asked in turn *)

Lemma propagated_store (answers : list (Synchroniser.t W * Result unit))
    (e : JsError) :
  propagated answers = Some e -> instanceofUserDataSyncStoreError e = true.
Proof.
  induction answers as [|[s [[]|e']] rest IH]; simpl; [discriminate|exact IH|].
  destruct (instanceofUserDataSyncStoreError e') eqn:He; [|exact IH].
  intros [= <-]. exact He.
Qed.

(** No store error among the answers: every synchroniser was asked,
    whatever else was thrown. *)
Lemma asked_all (call : Synchroniser.t W -> W -> Outcome W unit)
    (l : list (Synchroniser.t W)) (w : W) :
  propagated (asked call l w) = None -> map fst (asked call l w) = l.
Proof.
  revert w. induction l as [|s l IH]; intros w; [reflexivity|].
  cbn [asked propagated map fst].
  destruct (result (call s w)) as [[]|e]; cbn [endsLoop].
  - intros H. f_equal. now apply IH.
  - destruct (instanceofUserDataSyncStoreError e); [discriminate|].
    intros H. f_equal. now apply IH.
Qed.

(** A store error among the answers: it is the answer of the last
    synchroniser asked, all those before it were asked, and none after
    it. *)
Lemma asked_aborted (call : Synchroniser.t W -> W -> Outcome W unit)
    (l : list (Synchroniser.t W)) (w : W) (e : JsError) :
  propagated (asked call l w) = Some e ->
  exists pre k post,
    l = pre ++ k :: post /\
    asked call l w = asked call pre w ++ [(k, Throw e)] /\
    map fst (asked call pre w) = pre /\
    propagated (asked call pre w) = None.
Proof.
  revert w. induction l as [|s l IH]; intros w; [discriminate|].
  cbn [asked propagated].
  destruct (result (call s w)) as [[]|e'] eqn:Hr; cbn [endsLoop].
  - intros H. destruct (IH _ H) as (pre & k & post & -> & Ha & Hm & Hp).
    exists (s :: pre), k, post. cbn [asked propagated map fst app].
    rewrite Hr. cbn [endsLoop]. rewrite Ha, Hm, Hp. repeat split.
  - destruct (instanceofUserDataSyncStoreError e') eqn:He.
    + intros [= <-]. exists [], s, l. repeat split.
    + intros H. destruct (IH _ H) as (pre & k & post & -> & Ha & Hm & Hp).
      exists (s :: pre), k, post. cbn [asked propagated map fst app].
      rewrite Hr. cbn [endsLoop]. rewrite He, Ha, Hm, Hp. repeat split.
Qed.

(** The synchronisers asked are the first of the list, in order. *)
Lemma asked_prefix (call : Synchroniser.t W -> W -> Outcome W unit)
    (l : list (Synchroniser.t W)) (w : W) :
  map fst (asked call l w) = take (length (asked call l w)) l.
Proof.
  revert w. induction l as [|s l IH]; intros w; [reflexivity|].
  cbn [asked map fst length take].
  destruct (endsLoop (result (call s w))); simpl; [now rewrite take_0|].
  f_equal. apply IH.
Qed.

(** After an answer that is not a store error the next synchroniser, if
    there is one, is asked; after a store error nobody is. *)
Lemma asked_goes_on (call : Synchroniser.t W -> W -> Outcome W unit)
    (l : list (Synchroniser.t W)) (w : W) (i : nat)
    (x : Synchroniser.t W * Result unit) :
  asked call l w !! i = Some x ->
  (endsLoop (snd x) = false ->
   (S i < length l)%nat -> (S i < length (asked call l w))%nat) /\
  (endsLoop (snd x) = true -> length (asked call l w) = S i).
Proof.
  revert w i. induction l as [|s l IH]; intros w i; [discriminate|].
  cbn [asked]. destruct i as [|i]; simpl.
  - intros [= <-]. simpl. destruct (endsLoop (result (call s w))); split;
      try discriminate; try reflexivity.
    intros _ Hlt. destruct l as [|s' l]; simpl in *; lia.
  - destruct (endsLoop (result (call s w))); [discriminate|].
    intros Hx. destruct (IH _ _ Hx) as [Hgo Hstop]. split.
    + intros Hn Hlt. simpl. apply Hgo in Hn; lia.
    + intros Hy. simpl. now rewrite (Hstop Hy).
Qed.

(** ** Beside the loops *)

Lemma aside_refl (st : State) : aside st st.
Proof. split; [reflexivity|]. exists []. now rewrite app_nil_r. Qed.

Lemma aside_trans (a b c : State) : aside a b -> aside b c -> aside a c.
Proof.
  intros (He1 & evs1 & Ht1 & Hs1 & Hl1) (He2 & evs2 & Ht2 & Hs2 & Hl2).
  split; [congruence|]. exists (evs1 ++ evs2).
  split; [now rewrite Ht2, Ht1, app_assoc|].
  now rewrite syncInvocations_app, logged_app, Hs1, Hs2, Hl1, Hl2.
Qed.

Lemma aside_internal (st st' : State) : internal st st' -> aside st st'.
Proof.
  intros (_ & He & evs & Ht & Hn). split; [exact He|].
  exists evs. split; [exact Ht|].
  split; [now apply syncInvocations_notifications | now apply logged_notifications].
Qed.

Lemma aside_emit (ev : Event) (st : State) :
  syncInvocations [ev] = [] -> logged [ev] = [] -> aside st (emit ev st).
Proof. intros Hs Hl. split; [reflexivity|]. now exists [ev]. Qed.

Lemma aside_world (w : W) (st : State) : aside st (set_world w st).
Proof. split; [reflexivity|]. exists []. simpl. now rewrite app_nil_r. Qed.

Lemma aside_storage (g : gmap string StorageValue) (st : State) :
  aside st (set_storage g st).
Proof. split; [reflexivity|]. exists []. simpl. now rewrite app_nil_r. Qed.

Lemma aside_modify (base : State) (f : State -> State) :
  (forall st, aside st (f st)) -> preserves (aside base) (modify f).
Proof. intros Hf st H. simpl. eapply aside_trans; [exact H | apply Hf]. Qed.

Lemma aside_invoke {A : Type} (base : State) (s : Synchroniser.t W) (m : Method)
    (call : W -> Outcome W A) :
  notSync m -> preserves (aside base) (invoke s m call).
Proof.
  intros Hm st H. eapply aside_trans; [exact H|].
  split; [apply invoke_syncErrors|].
  destruct (invoke_trace s m call st) as (evs & Ht & Hn).
  exists (Invoke (Synchroniser.source s) m :: evs). split; [exact Ht|].
  change (Invoke (Synchroniser.source s) m :: evs)
    with ([Invoke (Synchroniser.source s) m] ++ evs).
  rewrite syncInvocations_app, logged_app,
    (syncInvocations_notifications _ Hn), (logged_notifications _ Hn).
  destruct m; try contradiction; split; reflexivity.
Qed.

Lemma aside_fetchManifest (base : State) : preserves (aside base) fetchManifest.
Proof.
  intros st H. unfold fetchManifest.
  destruct (StoreService.manifest userDataSyncStoreService (world st)) as [r w].
  simpl. eapply aside_trans; [exact H|].
  eapply aside_trans; [|apply aside_world]. now apply aside_emit.
Qed.

Lemma aside_hasPreviouslySyncedFrom (base : State) (l : list (Synchroniser.t W)) :
  preserves (aside base) (hasPreviouslySyncedFrom l).
Proof.
  induction l as [|s l IH]; simpl; [apply preserves_ret|].
  apply preserves_bind; [now apply aside_invoke|].
  intros [|]; [apply preserves_ret | exact IH].
Qed.

(** The [try] block of [sync] up to its loop. *)
Lemma aside_syncPrelude (st : State) : aside st (snd (syncPrelude st)).
Proof.
  assert (H : preserves (aside st) syncPrelude); [|apply H, aside_refl].
  unfold syncPrelude, hasPreviouslySynced.
  repeat match goal with
  | |- preserves _ (ret _) => apply preserves_ret
  | |- preserves _ (throw _) => apply preserves_throw
  | |- preserves _ (gets _) => apply preserves_gets
  | |- preserves _ (bind _ _) => apply preserves_bind; [|intros ?]
  | |- preserves _ fetchManifest => apply aside_fetchManifest
  | |- preserves _ (hasPreviouslySyncedFrom _) => apply aside_hasPreviouslySyncedFrom
  | |- preserves _ (modify (emit _)) =>
    apply aside_modify; intros ?; now apply aside_emit
  | |- preserves _ (modify (setStatus _)) =>
    apply aside_modify; intros ?; apply aside_internal, internal_setStatus
  | |- preserves _ (if ?b then _ else _) => destruct b
  | |- preserves _ (match ?x with _ => _ end) => destruct x
  end.
Qed.

(** The [try] block of [sync] after its loop. *)
Lemma aside_syncEpilogue (startTime : Z) (manifest : option IUserDataManifest)
    (sessionId : option string) (st : State) :
  aside st (snd (syncEpilogue startTime manifest sessionId st)).
Proof.
  assert (H : preserves (aside st) (syncEpilogue startTime manifest sessionId));
    [|apply H, aside_refl].
  unfold syncEpilogue.
  repeat match goal with
  | |- preserves _ (ret _) => apply preserves_ret
  | |- preserves _ (gets _) => apply preserves_gets
  | |- preserves _ (bind _ _) => apply preserves_bind; [|intros ?]
  | |- preserves _ fetchManifest => apply aside_fetchManifest
  | |- preserves _ (modify (emit _)) =>
    apply aside_modify; intros ?; now apply aside_emit
  | |- preserves _ (modify updateLastSyncTime) =>
    apply aside_modify; intros ?; apply aside_internal, internal_updateLastSyncTime
  | |- preserves _ (modify (storageStore _ _)) =>
    apply aside_modify; intros ?; apply aside_storage
  | |- preserves _ (if ?b then _ else _) => destruct b
  | |- preserves _ (match ?x with _ => _ end) => destruct x
  end.
Qed.

(** ** The round of [sync] *)

Lemma checkEnablement_enabled (st : State) :
  StoreService.userDataSyncStore userDataSyncStoreService <> None ->
  checkEnablement st = (Ok tt, st).
Proof.
  intros H. unfold checkEnablement.
  destruct (StoreService.userDataSyncStore userDataSyncStoreService);
    [reflexivity | contradiction].
Qed.

Lemma checkEnablement_disabled {A : Type} (k : unit -> M A) (st : State) :
  StoreService.userDataSyncStore userDataSyncStoreService = None ->
  bind checkEnablement k st = (Throw (Error "Not enabled"), st).
Proof. intros H. unfold bind, checkEnablement. now rewrite H. Qed.

Lemma sync_enabled (st : State) :
  StoreService.userDataSyncStore userDataSyncStoreService <> None ->
  sync st
  = try_finally (syncRound (now (world st))) syncFinally (set_syncErrors [] st).
Proof.
  intros H. unfold sync, bind. now rewrite (checkEnablement_enabled _ H).
Qed.

Lemma syncFinally_run (st : State) :
  syncFinally st
  = (Ok tt, emit (SyncErrors (_syncErrors st)) (updateStatus st)).
Proof.
  unfold syncFinally, bind, modify, gets. simpl.
  now rewrite syncErrors_updateStatus.
Qed.

(** A round that throws ends in the [finally] block, run from where the
    [try] block stopped. *)
Lemma sync_round_throws (st st1 : State) (e : JsError) :
  StoreService.userDataSyncStore userDataSyncStoreService <> None ->
  syncRound (now (world st)) (set_syncErrors [] st) = (Throw e, st1) ->
  sync st = (Throw e, emit (SyncErrors (_syncErrors st1)) (updateStatus st1)).
Proof.
  intros Hen Hr. rewrite (sync_enabled _ Hen). unfold try_finally.
  now rewrite Hr, syncFinally_run.
Qed.

Lemma finally_invocations (st : State) :
  invocations (trace (emit (SyncErrors (_syncErrors st)) (updateStatus st)))
  = invocations (trace st).
Proof.
  destruct (internal_updateStatus st) as (_ & _ & evs & Ht & Hn).
  simpl. rewrite Ht, !invocations_app, (invocations_notifications _ Hn).
  simpl. now rewrite !app_nil_r.
Qed.

Lemma sync_outcome (st : State) :
  StoreService.userDataSyncStore userDataSyncStoreService <> None ->
  sync st
  = (fst (syncRound (now (world st)) (set_syncErrors [] st)),
     emit (SyncErrors
             (_syncErrors (snd (syncRound (now (world st)) (set_syncErrors [] st)))))
       (updateStatus (snd (syncRound (now (world st)) (set_syncErrors [] st))))).
Proof.
  intros Hen. rewrite (sync_enabled _ Hen). unfold try_finally.
  destruct (syncRound _ _) as [r st1]. now rewrite syncFinally_run.
Qed.

(** ** The loops against the synchronisers' answers *)

Lemma pull_loop_guarded (l : list (Synchroniser.t W)) (st : State) :
  forEach l pullOne st
  = forEach l (fun s => guardedCall false s MPull (Synchroniser.pull s)) st.
Proof.
  revert st. induction l as [|s l IH]; intros st; simpl; [reflexivity|].
  unfold bind. rewrite pullOne_guarded.
  destruct (guardedCall _ _ _ _ _) as [[[]|?] ?]; [apply IH | reflexivity].
Qed.

Lemma push_loop_guarded (l : list (Synchroniser.t W)) (st : State) :
  forEach l pushOne st
  = forEach l (fun s => guardedCall false s MPush (Synchroniser.push s)) st.
Proof.
  revert st. induction l as [|s l IH]; intros st; simpl; [reflexivity|].
  unfold bind. rewrite pushOne_guarded.
  destruct (guardedCall _ _ _ _ _) as [[[]|?] ?]; [apply IH | reflexivity].
Qed.

(** A loop of [pull] or [push] followed by [updateLastSyncTime], read
    against the answers of the synchronisers asked in turn. *)
Lemma transfer_reads_answers (m : Method)
    (call : Synchroniser.t W -> W -> Outcome W unit) (st : State) :
  let run := bind (forEach synchronisers (fun s => guardedCall false s m (call s)))
                  (fun _ => modify updateLastSyncTime) st in
  fst run = loopResult (asked call synchronisers (world st)) /\
  invocations (emitted st (snd run))
  = map (fun x => (Synchroniser.source (fst x), m))
        (asked call synchronisers (world st)) /\
  logged (emitted st (snd run)) = caught (asked call synchronisers (world st)) /\
  _syncErrors (snd run) = _syncErrors st.
Proof.
  destruct (guarded_loop_asked false (fun _ => m) call synchronisers st)
    as (st1 & Hloop & He & evs & Ht & Hi & Hl).
  unfold pushed in He. rewrite app_nil_r in He.
  cbv zeta. unfold bind. rewrite Hloop.
  destruct (loopResult (asked call synchronisers (world st))) as [[]|e].
  - destruct (internal_updateLastSyncTime st1) as (_ & He2 & evs2 & Ht2 & Hn2).
    cbn [modify fst snd].
    rewrite (emitted_app st _ (evs ++ evs2))
      by (now rewrite Ht2, Ht, app_assoc).
    rewrite invocations_app, logged_app, (invocations_notifications _ Hn2),
      (logged_notifications _ Hn2), !app_nil_r.
    repeat split; congruence.
  - cbn [fst snd]. rewrite (emitted_app st _ evs Ht). repeat split; congruence.
Qed.

Lemma pull_enabled (st : State) :
  StoreService.userDataSyncStore userDataSyncStoreService <> None ->
  pull st
  = bind (forEach synchronisers
            (fun s => guardedCall false s MPull (Synchroniser.pull s)))
         (fun _ => modify updateLastSyncTime) st.
Proof.
  intros Hen. unfold pull. unfold bind at 1.
  rewrite (checkEnablement_enabled _ Hen). unfold bind.
  now rewrite pull_loop_guarded.
Qed.

Lemma push_enabled (st : State) :
  StoreService.userDataSyncStore userDataSyncStoreService <> None ->
  push st
  = bind (forEach synchronisers
            (fun s => guardedCall false s MPush (Synchroniser.push s)))
         (fun _ => modify updateLastSyncTime) st.
Proof.
  intros Hen. unfold push. unfold bind at 1.
  rewrite (checkEnablement_enabled _ Hen). unfold bind.
  now rewrite push_loop_guarded.
Qed.

Lemma syncEpilogue_returns (startTime : Z) (m : IUserDataManifest)
    (sessionId : option string) (st : State) :
  fst (syncEpilogue startTime (Some m) sessionId st) = Ok tt.
Proof.
  unfold syncEpilogue, bind, ret, gets, modify. now case_bool_decide.
Qed.

(** Without a manifest before the loop, the [try] block ends by fetching
    it again: the only step after the loop that can throw. *)
Lemma syncEpilogue_refetch (startTime : Z) (sessionId : option string)
    (st : State) :
  fst (syncEpilogue startTime None sessionId st) = Ok tt \/
  exists e,
    fst (StoreService.manifest userDataSyncStoreService (world st)) = Throw e /\
    fst (syncEpilogue startTime None sessionId st) = Throw e.
Proof.
  unfold syncEpilogue, bind, fetchManifest.
  destruct (StoreService.manifest userDataSyncStoreService (world st))
    as [[[m|]|e] w]; simpl.
  - left. unfold ret, gets, modify. now case_bool_decide.
  - now left.
  - right. now exists e.
Qed.

Lemma syncInvocations_asked (manifest : option IUserDataManifest)
    (a : list (Synchroniser.t W * Result unit)) (evs : list Event) :
  invocations evs
  = map (fun x => (Synchroniser.source (fst x),
                   MSync (latestRef manifest (Synchroniser.resourceKey (fst x))))) a ->
  syncInvocations evs
  = map (fun x => (Synchroniser.source (fst x),
                   latestRef manifest (Synchroniser.resourceKey (fst x)))) a.
Proof.
  intros H. rewrite syncInvocations_invocations, H. clear H.
  induction a as [|x a IH]; [reflexivity|]. simpl. f_equal. exact IH.
Qed.

(** A round of [sync] that reached its loop, read against the answers
    of the synchronisers asked in turn. *)
Lemma sync_reads_answers (st st0 : State)
    (fetched : option IUserDataManifest * option string) :
  StoreService.userDataSyncStore userDataSyncStoreService <> None ->
  syncPrelude (set_syncErrors [] st) = (Ok fetched, st0) ->
  let a := asked (fun s => Synchroniser.sync s
                             (latestRef (fst fetched) (Synchroniser.resourceKey s)))
                 synchronisers (world st0) in
  (forall e, propagated a = Some e -> fst (sync st) = Throw e) /\
  (propagated a = None -> fst fetched <> None -> fst (sync st) = Ok tt) /\
  (propagated a = None -> fst fetched = None ->
   fst (sync st) = Ok tt \/
   exists e w,
     fst (StoreService.manifest userDataSyncStoreService w) = Throw e /\
     fst (sync st) = Throw e) /\
  syncInvocations (emitted st (snd (sync st)))
  = map (fun x => (Synchroniser.source (fst x),
                   latestRef (fst fetched) (Synchroniser.resourceKey (fst x)))) a /\
  logged (emitted st (snd (sync st))) = caught a /\
  _syncErrors (snd (sync st)) = pushed true (caught a).
Proof.
  intros Hen Hpre a.
  destruct (aside_syncPrelude (set_syncErrors [] st)) as (He0 & evs0 & Ht0 & Hs0 & Hl0).
  rewrite Hpre in He0, Ht0. cbn [snd] in He0, Ht0. simpl in He0, Ht0.
  destruct (guarded_loop_asked true
              (fun s => MSync (latestRef (fst fetched) (Synchroniser.resourceKey s)))
              (fun s => Synchroniser.sync s
                          (latestRef (fst fetched) (Synchroniser.resourceKey s)))
              synchronisers st0)
    as (st1 & Hloop & He1 & evs1 & Ht1 & Hi1 & Hl1).
  fold a in Hloop, He1, Hi1, Hl1.
  assert (Hloop' : syncLoop (fst fetched) synchronisers st0 = (loopResult a, st1))
    by exact Hloop.
  rewrite He0 in He1. cbn [app] in He1.
  apply syncInvocations_asked in Hi1.
  set (R := syncRound (now (world st)) (set_syncErrors [] st)).
  assert (HR : (forall e, propagated a = Some e -> fst R = Throw e) /\
               (propagated a = None -> fst fetched <> None -> fst R = Ok tt) /\
               (propagated a = None -> fst fetched = None ->
                fst R = Ok tt \/
                exists e w,
                  fst (StoreService.manifest userDataSyncStoreService w) = Throw e /\
                  fst R = Throw e) /\
               aside st1 (snd R)).
  { unfold R, syncRound, bind. rewrite Hpre, Hloop'. unfold loopResult.
    destruct (propagated a) as [e|].
    - split; [now intros ? [= <-]|]. split; [discriminate|].
      split; [discriminate|]. apply aside_refl.
    - split; [discriminate|]. split; [|split; [|apply aside_syncEpilogue]].
      + intros _ Hm. destruct (fst fetched) as [m|]; [|contradiction].
        apply syncEpilogue_returns.
      + intros _ Hm. rewrite Hm.
        destruct (syncEpilogue_refetch (now (world st)) (snd fetched) st1)
          as [Hok|(e & He & Hthrow)]; [now left|].
        right. now exists e, (world st1). }
  destruct HR as (Hthrow & Hret & Hrefetch & HeR & evsR & HtR & HsR & HlR).
  rewrite (sync_outcome _ Hen). fold R. cbn [fst snd].
  destruct (internal_updateStatus (snd R)) as (_ & HeU & evsU & HtU & HnU).
  rewrite (emitted_app st _
             (evs0 ++ evs1 ++ evsR ++ evsU ++ [SyncErrors (_syncErrors (snd R))]))
    by (simpl; rewrite HtU, HtR, Ht1, Ht0; now rewrite <- !app_assoc).
  rewrite !syncInvocations_app, !logged_app, Hs0, Hl0, Hi1, Hl1, HsR, HlR,
    (syncInvocations_notifications _ HnU), (logged_notifications _ HnU).
  simpl. rewrite !app_nil_r.
  repeat split; try assumption. now rewrite HeU, HeR, He1.
Qed.

(** C1, as the code has it. Out of the per-synchroniser loops of [pull],
    [push] and [sync] only a store error propagates (a
    [UserDataSyncStoreError], whatever its code, [TooLarge] among them).
    With the store enabled, each method is read against the answers of
    the synchronisers asked in turn ([asked]), whatever they answer and
    however many of them throw: [pull] and [push] end as the answers say,
    throwing only a store error a synchroniser threw; the calls made are
    the calls on the synchronisers asked, in order; every other error
    thrown is logged with its source and, in a round of [sync] that
    reached its loop, pushed on the error list, which ends up holding one
    entry per such error and nothing else ([pull] and [push] leave the
    list alone).  A round of [sync] throws the store error a
    synchroniser threw; when none did it returns, unless the manifest,
    absent before the loop, is fetched again and that fetch throws.  And
    of the synchronisers asked: they are the first of the list, in
    order; all of them when no store error is thrown; and after a
    synchroniser that throws another error the next one is still
    asked. *)
Theorem loops_isolate_failures (st : State) :
  StoreService.userDataSyncStore userDataSyncStoreService <> None ->
  (let a := asked Synchroniser.pull synchronisers (world st) in
   fst (pull st) = loopResult a /\
   invocations (emitted st (snd (pull st)))
   = map (fun x => (Synchroniser.source (fst x), MPull)) a /\
   logged (emitted st (snd (pull st))) = caught a /\
   _syncErrors (snd (pull st)) = _syncErrors st) /\
  (let a := asked Synchroniser.push synchronisers (world st) in
   fst (push st) = loopResult a /\
   invocations (emitted st (snd (push st)))
   = map (fun x => (Synchroniser.source (fst x), MPush)) a /\
   logged (emitted st (snd (push st))) = caught a /\
   _syncErrors (snd (push st)) = _syncErrors st) /\
  (forall fetched st0,
     syncPrelude (set_syncErrors [] st) = (Ok fetched, st0) ->
     let a := asked (fun s => Synchroniser.sync s
                                (latestRef (fst fetched) (Synchroniser.resourceKey s)))
                    synchronisers (world st0) in
     (forall e, propagated a = Some e -> fst (sync st) = Throw e) /\
     (propagated a = None -> fst fetched <> None -> fst (sync st) = Ok tt) /\
     (propagated a = None -> fst fetched = None ->
      fst (sync st) = Ok tt \/
      exists e w,
        fst (StoreService.manifest userDataSyncStoreService w) = Throw e /\
        fst (sync st) = Throw e) /\
     syncInvocations (emitted st (snd (sync st)))
     = map (fun x => (Synchroniser.source (fst x),
                      latestRef (fst fetched) (Synchroniser.resourceKey (fst x)))) a /\
     logged (emitted st (snd (sync st))) = caught a /\
     _syncErrors (snd (sync st))
     = map (fun x => (fst x, toUserDataSyncError (snd x))) (caught a)) /\
  (forall call w,
     let a := asked call synchronisers w in
     (forall e, propagated a = Some e ->
                instanceofUserDataSyncStoreError e = true) /\
     (propagated a = None -> map fst a = synchronisers) /\
     map fst a = take (length a) synchronisers /\
     (forall i x, a !! i = Some x -> endsLoop (snd x) = false ->
                  (S i < length synchronisers)%nat -> (S i < length a)%nat)).
Proof.
  intros Hen. split; [|split; [|split]].
  - rewrite (pull_enabled _ Hen).
    apply (transfer_reads_answers MPull Synchroniser.pull st).
  - rewrite (push_enabled _ Hen).
    apply (transfer_reads_answers MPush Synchroniser.push st).
  - intros fetched st0 Hpre. apply (sync_reads_answers st st0 fetched Hen Hpre).
  - intros call w a. split; [apply propagated_store|].
    split; [apply asked_all|]. split; [apply asked_prefix|].
    intros i x Hx. apply (asked_goes_on call synchronisers w i x Hx).
Qed.

(** C10. In a round of [sync] that reached its loop and in which a
    synchroniser throws a store error: [sync] throws that error; the
    synchronisers before it were all asked, it was the last one asked and
    those after it are not called; the error list holds one entry per
    error caught before and none for the store error; and the [finally]
    block has still recomputed the aggregate status and fired, last, the
    batch of exactly those errors. *)
Theorem sync_store_error_aborts (st st0 : State)
    (fetched : option IUserDataManifest * option string) (e : JsError) :
  StoreService.userDataSyncStore userDataSyncStoreService <> None ->
  syncPrelude (set_syncErrors [] st) = (Ok fetched, st0) ->
  let call := fun s => Synchroniser.sync s
                         (latestRef (fst fetched) (Synchroniser.resourceKey s)) in
  let a := asked call synchronisers (world st0) in
  propagated a = Some e ->
  fst (sync st) = Throw e /\
  instanceofUserDataSyncStoreError e = true /\
  (exists pre k post,
     synchronisers = pre ++ k :: post /\
     a = asked call pre (world st0) ++ [(k, Throw e)] /\
     map fst (asked call pre (world st0)) = pre /\
     caught a = caught (asked call pre (world st0))) /\
  syncInvocations (emitted st (snd (sync st)))
  = map (fun x => (Synchroniser.source (fst x),
                   latestRef (fst fetched) (Synchroniser.resourceKey (fst x)))) a /\
  _syncErrors (snd (sync st))
  = map (fun x => (fst x, toUserDataSyncError (snd x))) (caught a) /\
  _status (snd (sync st)) = computeStatus (snd (sync st)) /\
  last (trace (snd (sync st)))
  = Some (SyncErrors (map (fun x => (fst x, toUserDataSyncError (snd x)))
                          (caught a))).
Proof.
  intros Hen Hpre call a Hp.
  destruct (sync_reads_answers st st0 fetched Hen Hpre)
    as (Hthrow & _ & _ & Hi & _ & He).
  fold call in Hthrow, Hi, He. fold a in Hthrow, Hi, He.
  pose proof (propagated_store _ _ Hp) as Hstore.
  split; [now apply Hthrow|]. split; [exact Hstore|].
  split; [|split; [exact Hi|split; [exact He|split]]].
  - destruct (asked_aborted call synchronisers (world st0) e Hp)
      as (pre & k & post & Hl & Ha & Hm & _).
    exists pre, k, post. split; [exact Hl|]. split; [exact Ha|].
    split; [exact Hm|].
    unfold a. rewrite Ha, caught_app. unfold caught at 2. simpl.
    rewrite Hstore. apply app_nil_r.
  - rewrite (sync_outcome _ Hen). apply updateStatus_status.
  - change (last (trace (snd (sync st)))
            = Some (SyncErrors (pushed true (caught a)))).
    rewrite <- He. rewrite (sync_outcome _ Hen). cbn [snd].
    simpl. rewrite last_snoc. now rewrite syncErrors_updateStatus.
Qed.

(** ** Rounds refused before the loop *)

Lemma hasPreviouslySyncedFrom_reports (l : list (Synchroniser.t W)) (st : State) :
  reportsPreviouslySynced l (world st) ->
  fst (hasPreviouslySyncedFrom l st) = Ok true.
Proof.
  intros H. remember (world st) as w eqn:Hw. revert st Hw.
  induction H as [s rest w Hs | s rest w Hs Hrest IH]; intros st ->;
    simpl; unfold bind;
    pose proof (invoke_result s MHasPreviouslySynced
                  (Synchroniser.hasPreviouslySynced s) st) as Hr;
    pose proof (invoke_world s MHasPreviouslySynced
                  (Synchroniser.hasPreviouslySynced s) st) as Hw;
    destruct (invoke s MHasPreviouslySynced (Synchroniser.hasPreviouslySynced s) st)
      as [r st1]; simpl in *; rewrite Hs in Hr; subst r.
  - reflexivity.
  - apply IH. now symmetry.
Qed.

Lemma syncStarted_world (st : State) : world (syncStarted st) = world st.
Proof.
  unfold syncStarted. case_bool_decide; [|reflexivity].
  now rewrite world_setStatus.
Qed.

Lemma syncStarted_storage (st : State) : storage (syncStarted st) = storage st.
Proof.
  unfold syncStarted. case_bool_decide as H; [|reflexivity].
  unfold setStatus. simpl. case_bool_decide; [|reflexivity].
  now rewrite (bool_decide_eq_false_2 _ H).
Qed.

Lemma syncStarted_invocations (st : State) :
  invocations (trace (syncStarted st)) = invocations (trace st).
Proof.
  unfold syncStarted.
  assert (H0 : invocations (trace (emit (LogTrace "Sync started.") st))
               = invocations (trace st)).
  { simpl. rewrite invocations_app. simpl. apply app_nil_r. }
  case_bool_decide; [|exact H0].
  destruct (internal_setStatus Syncing (emit (LogTrace "Sync started.") st))
    as (_ & _ & evs & Ht & Hn).
  rewrite Ht, invocations_app, (invocations_notifications _ Hn), app_nil_r.
  exact H0.
Qed.

(** The [try] block up to the fetch of the manifest. *)
Lemma syncPrelude_fetch (st : State) :
  syncPrelude st
  = bind fetchManifest (fun manifest =>
      bind (match manifest with
            | None =>
              bind hasPreviouslySynced (fun previouslySynced =>
                if previouslySynced then
                  throw (UserDataSyncError
                           "Cannot sync because syncing is turned off in the cloud"
                           TurnedOff)
                else ret tt)
            | Some _ => ret tt
            end) (fun _ =>
      bind (gets (storageGet SESSION_ID_KEY)) (fun sessionId =>
      bind (if sessionExpired sessionId manifest then
              throw (UserDataSyncError
                       "Cannot sync because current session is expired"
                       SessionExpired)
            else ret tt) (fun _ =>
      ret (manifest, sessionId))))) (syncStarted st).
Proof.
  unfold syncPrelude, syncStarted, bind at 1 2 3, modify, gets. simpl.
  case_bool_decide; reflexivity.
Qed.

Lemma fetchManifest_run (st : State) (r : Result (option IUserDataManifest)) (w : W) :
  StoreService.manifest userDataSyncStoreService (world st) = (r, w) ->
  fetchManifest st = (r, set_world w (emit StoreManifest st)).
Proof. intros H. unfold fetchManifest. now rewrite H. Qed.

(** C6. When [sync] fetches a null manifest and a synchroniser reports
    that it has previously synced, the round fails with [TurnedOff] and no
    synchroniser's [sync] is called. *)
Theorem sync_TurnedOff (st : State) (w1 : W) :
  StoreService.userDataSyncStore userDataSyncStoreService <> None ->
  StoreService.manifest userDataSyncStoreService (world st) = (Ok None, w1) ->
  reportsPreviouslySynced synchronisers w1 ->
  fst (sync st)
  = Throw (UserDataSyncError
             "Cannot sync because syncing is turned off in the cloud" TurnedOff) /\
  syncInvocations (trace (snd (sync st))) = syncInvocations (trace st).
Proof.
  intros Hen Hman Hrep.
  set (st0 := set_syncErrors [] st).
  assert (Hres : fst (syncPrelude st0)
                 = Throw (UserDataSyncError
                            "Cannot sync because syncing is turned off in the cloud"
                            TurnedOff)).
  { rewrite syncPrelude_fetch. unfold bind at 1.
    rewrite (fetchManifest_run _ (Ok None) w1)
      by (now rewrite syncStarted_world).
    unfold bind at 1 2.
    pose proof (hasPreviouslySyncedFrom_reports synchronisers
                  (set_world w1 (emit StoreManifest (syncStarted st0))) Hrep) as Hp.
    unfold hasPreviouslySynced.
    destruct (hasPreviouslySyncedFrom synchronisers _) as [r st2].
    simpl in Hp. subst r. reflexivity. }
  assert (Hcalls : syncCallsAre (syncInvocations (trace st)) (snd (syncPrelude st0))).
  { apply (preserves_syncPrelude _ _ (syncCallsAre_stable _)); [exact Logic.I|].
    reflexivity. }
  destruct (syncPrelude st0) as [r st1] eqn:Hpre. simpl in Hres, Hcalls. subst r.
  assert (Hround : syncRound (now (world st)) st0 = (Throw
            (UserDataSyncError
               "Cannot sync because syncing is turned off in the cloud" TurnedOff),
            st1)).
  { unfold syncRound, bind. now rewrite Hpre. }
  rewrite (sync_round_throws _ _ _ Hen Hround). simpl.
  split; [reflexivity|].
  apply (stable_quiet _ _ (syncCallsAre_stable _)); [exact Logic.I|].
  now apply (stable_updateStatus _ _ (syncCallsAre_stable _)).
Qed.

(** C7, as the code has it. When a non-empty session id is stored and
    the manifest [sync] fetches carries another one, the round fails with
    [SessionExpired]; no method of any synchroniser was called, and the
    collaborators are left as the manifest fetch left them. *)
Theorem sync_SessionExpired (st : State) (sid : string) (m : IUserDataManifest)
    (w1 : W) :
  StoreService.userDataSyncStore userDataSyncStoreService <> None ->
  storageGet SESSION_ID_KEY st = Some sid ->
  sid <> "" ->
  StoreService.manifest userDataSyncStoreService (world st) = (Ok (Some m), w1) ->
  session m <> sid ->
  fst (sync st)
  = Throw (UserDataSyncError
             "Cannot sync because current session is expired" SessionExpired) /\
  invocations (trace (snd (sync st))) = invocations (trace st) /\
  world (snd (sync st)) = w1.
Proof.
  intros Hen Hsid Hne Hman Hdiff.
  set (st0 := set_syncErrors [] st).
  assert (Hpre : syncPrelude st0
                 = (Throw (UserDataSyncError
                             "Cannot sync because current session is expired"
                             SessionExpired),
                    set_world w1 (emit StoreManifest (syncStarted st0)))).
  { rewrite syncPrelude_fetch. unfold bind at 1.
    rewrite (fetchManifest_run _ (Ok (Some m)) w1)
      by (now rewrite syncStarted_world).
    unfold bind, ret, gets.
    assert (Hget : storageGet SESSION_ID_KEY
                     (set_world w1 (emit StoreManifest (syncStarted st0)))
                   = Some sid).
    { unfold storageGet in *. simpl. now rewrite syncStarted_storage. }
    rewrite Hget. unfold sessionExpired.
    rewrite (bool_decide_eq_false_2 _ Hne).
    rewrite bool_decide_eq_false_2 by congruence. reflexivity. }
  assert (Hround : syncRound (now (world st)) st0
                   = (Throw (UserDataSyncError
                               "Cannot sync because current session is expired"
                               SessionExpired),
                      set_world w1 (emit StoreManifest (syncStarted st0)))).
  { unfold syncRound, bind. now rewrite Hpre. }
  rewrite (sync_round_throws _ _ _ Hen Hround).
  split; [reflexivity|]. split.
  - cbn [snd]. rewrite finally_invocations. simpl.
    rewrite invocations_app, syncStarted_invocations. simpl. apply app_nil_r.
  - cbn [snd]. simpl. now rewrite world_updateStatus.
Qed.

(** ** First sync with merge *)

Lemma hasPreviouslySyncedFrom_answers (ps : Synchroniser.t W -> bool)
    (l : list (Synchroniser.t W)) :
  (forall s w, s ∈ l -> result (Synchroniser.hasPreviouslySynced s w) = Ok (ps s)) ->
  forall st, fst (hasPreviouslySyncedFrom l st) = Ok (existsb ps l).
Proof.
  induction l as [|s l IH]; intros Hps st; simpl; [reflexivity|].
  unfold bind.
  pose proof (invoke_result s MHasPreviouslySynced
                (Synchroniser.hasPreviouslySynced s) st) as Hr.
  rewrite (Hps s _ (list_elem_of_here _ _)) in Hr.
  destruct (invoke s MHasPreviouslySynced (Synchroniser.hasPreviouslySynced s) st)
    as [r st1]. simpl in Hr. subst r.
  destruct (ps s); simpl; [reflexivity|].
  apply IH. intros s' w Hin. apply Hps. now apply list_elem_of_further.
Qed.

Lemma hasLocalDataFrom_answers (ld : Synchroniser.t W -> bool)
    (l : list (Synchroniser.t W)) :
  (forall s w, s ∈ l -> result (Synchroniser.hasLocalData s w) = Ok (ld s)) ->
  forall st, fst (hasLocalDataFrom l st) = Ok (existsb ld l).
Proof.
  induction l as [|s l IH]; intros Hld st; simpl; [reflexivity|].
  unfold bind.
  pose proof (invoke_result s MHasLocalData (Synchroniser.hasLocalData s) st) as Hr.
  rewrite (Hld s _ (list_elem_of_here _ _)) in Hr.
  destruct (invoke s MHasLocalData (Synchroniser.hasLocalData s) st)
    as [r st1]. simpl in Hr. subst r.
  destruct (ld s); simpl; [reflexivity|].
  apply IH. intros s' w Hin. apply Hld. now apply list_elem_of_further.
Qed.

(** C9. With the store enabled, a manifest fetch that answers [manifest]
    and synchronisers that answer [ps] to [hasPreviouslySynced] and [ld]
    to [hasLocalData], [isFirstTimeSyncWithMerge] returns the conjunction
    of the three conditions: a manifest exists, no synchroniser has
    previously synced, some synchroniser has local data; so [true] for
    that combination and [false] for the seven others. *)
Theorem isFirstTimeSyncWithMerge_truth_table
    (manifest : option IUserDataManifest) (ps ld : Synchroniser.t W -> bool)
    (st : State) :
  StoreService.userDataSyncStore userDataSyncStoreService <> None ->
  fst (StoreService.manifest userDataSyncStoreService (world st)) = Ok manifest ->
  (forall s w, s ∈ synchronisers ->
     result (Synchroniser.hasPreviouslySynced s w) = Ok (ps s)) ->
  (forall s w, s ∈ synchronisers ->
     result (Synchroniser.hasLocalData s w) = Ok (ld s)) ->
  fst (isFirstTimeSyncWithMerge st)
  = Ok (bool_decide (is_Some manifest)
        && negb (existsb ps synchronisers)
        && existsb ld synchronisers).
Proof.
  intros Hen Hman Hps Hld.
  unfold isFirstTimeSyncWithMerge, bind.
  rewrite (checkEnablement_enabled _ Hen).
  unfold fetchManifest.
  destruct (StoreService.manifest userDataSyncStoreService (world st)) as [r w1].
  simpl in Hman. subst r.
  destruct manifest as [m|]; [|reflexivity].
  rewrite bool_decide_eq_true_2 by eauto. simpl.
  unfold hasPreviouslySynced, hasLocalData.
  pose proof (hasPreviouslySyncedFrom_answers ps synchronisers Hps
                (set_world w1 (emit StoreManifest st))) as Hp.
  destruct (hasPreviouslySyncedFrom synchronisers _) as [r st2].
  simpl in Hp. subst r.
  destruct (existsb ps synchronisers); simpl; [reflexivity|].
  apply (hasLocalDataFrom_answers ld synchronisers Hld).
Qed.

(** ** The enablement check *)

(** With the store not configured, the methods that check enablement
    throw at once and leave the state as it was. *)
Lemma not_enabled_guarded (st : State) :
  StoreService.userDataSyncStore userDataSyncStoreService = None ->
  pull st = (Throw (Error "Not enabled"), st) /\
  push st = (Throw (Error "Not enabled"), st) /\
  sync st = (Throw (Error "Not enabled"), st) /\
  stop st = (Throw (Error "Not enabled"), st) /\
  (forall src content,
     accept src content st = (Throw (Error "Not enabled"), st)) /\
  (forall src preview,
     getRemoteContent src preview st = (Throw (Error "Not enabled"), st)) /\
  isFirstTimeSyncWithMerge st = (Throw (Error "Not enabled"), st) /\
  reset st = (Throw (Error "Not enabled"), st) /\
  resetLocal st = (Throw (Error "Not enabled"), st).
Proof.
  intros H. repeat split; intros; now apply checkEnablement_disabled.
Qed.

(** [resolveContent] makes no such check: whatever the store, it goes to
    the first synchroniser of that resource key. *)
Lemma resolveContent_unguarded (key : ResourceKey) (ref : string)
    (s : Synchroniser.t W) (rest : list (Synchroniser.t W)) (st : State) :
  List.filter (fun s => bool_decide (Synchroniser.resourceKey s = key))
              synchronisers = s :: rest ->
  resolveContent key ref st
  = invoke s (MResolveContent ref) (Synchroniser.resolveContent s ref) st.
Proof. intros H. unfold resolveContent. now rewrite H. Qed.

(** ** The conflict sources *)


Lemma setStatus_trace (s : SyncStatus) (st : State) :
  exists evs, trace (setStatus s st) = trace st ++ evs /\
              forall l, DidChangeConflicts l ∉ evs.
Proof.
  unfold setStatus. case_bool_decide.
  - case_bool_decide.
    + unfold updateLastSyncTime. case_bool_decide; simpl.
      * exists [DidChangeStatus s; DidChangeLastSyncTime (now (world st))].
        split; [now rewrite <- app_assoc|].
        intros l Hin. rewrite !elem_of_cons, elem_of_nil in Hin.
        destruct Hin as [?|[?|[]]]; discriminate.
      * exists [DidChangeStatus s]. split; [reflexivity|].
        intros l Hin. apply list_elem_of_singleton in Hin. discriminate.
    + exists [DidChangeStatus s]. split; [reflexivity|].
      intros l Hin. apply list_elem_of_singleton in Hin. discriminate.
  - exists []. split; [now rewrite app_nil_r|]. intros l. apply not_elem_of_nil.
Qed.

(** What [updateStatus] fires about conflicts, by the answer of [equals]. *)
Lemma updateStatus_conflicts (st : State) (l : list SyncSource) :
  DidChangeConflicts l ∈ emitted st (updateStatus st)
  <-> l = computeConflictsSources st /\
      equals (_conflictsSources st) (computeConflictsSources st) = false.
Proof.
  unfold updateStatus.
  destruct (equals (_conflictsSources st) (computeConflictsSources st)) eqn:E;
    simpl.
  - destruct (setStatus_trace (computeStatus st) st) as (evs & Ht & Hn).
    rewrite (emitted_app _ _ _ Ht). split; [|intros [_ ?]; discriminate].
    intros Hin. now apply Hn in Hin.
  - set (st1 := emit (DidChangeConflicts (computeConflictsSources st))
                  (set_conflictsSources (computeConflictsSources st) st)).
    destruct (setStatus_trace (computeStatus st1) st1) as (evs & Ht & Hn).
    rewrite (emitted_app st _ (DidChangeConflicts (computeConflictsSources st) :: evs))
      by (rewrite Ht; simpl; now rewrite <- app_assoc).
    rewrite elem_of_cons. split.
    + intros [Heq|Hin]; [|now apply Hn in Hin]. split; [congruence|reflexivity].
    + intros [-> _]. now left.
Qed.


End Properties.

(** * The service run on scripted environments *)

(** C2, counterexample. The keybindings synchroniser leaves its conflicts
    for [Syncing]: the aggregate status goes from [HasConflicts] to
    [Syncing] and the last sync time is not refreshed. *)
Lemma setStatus_Syncing_does_not_refresh :
  let st := Mock.leavingConflicts Mock.healthy Keybindings Syncing in
  _status st = HasConflicts /\
  computeStatus st = Syncing /\
  _status (setStatus Syncing st) = Syncing /\
  ~ lastSyncTimeRefreshed st (setStatus Syncing st).
Proof.
  split; [vm_compute; reflexivity|]. split; [vm_compute; reflexivity|].
  split; [vm_compute; reflexivity|].
  intros (H & _). vm_compute in H. discriminate.
Qed.

(** When it leaves them for [Idle], the time is refreshed. *)
Lemma setStatus_leaving_HasConflicts_witness :
  let st := Mock.leavingConflicts Mock.healthy Keybindings Idle in
  _status st = HasConflicts /\ Idle <> HasConflicts /\
  lastSyncTimeRefreshed st (setStatus Idle st).
Proof.
  intros st.
  assert (H1 : _status st = HasConflicts) by (vm_compute; reflexivity).
  assert (H2 : Idle <> HasConflicts) by discriminate.
  exact (conj H1 (conj H2
           (proj1 (setStatus_leaving_HasConflicts st Idle H1 H2) eq_refl))).
Defined.

(** C1, counterexample. A store error whose code is not [TooLarge]
    propagates all the same: thrown by the second synchroniser, it ends
    [pull], [push] and [sync]; the third and fourth synchronisers are not
    called. *)
Lemma other_store_error_propagates :
  let e := UserDataSyncStoreError "Server returned 401" (OtherCode "Unauthorized") in
  let st := Mock.fresh (Mock.failing Keybindings e) ∅ in
  fst (pull st) = Throw e /\
  invocations (trace (snd (pull st))) = [(Settings, MPull); (Keybindings, MPull)] /\
  fst (push st) = Throw e /\
  invocations (trace (snd (push st))) = [(Settings, MPush); (Keybindings, MPush)] /\
  fst (sync st) = Throw e /\
  invocations (trace (snd (sync st)))
  = [(Settings, MSync None); (Keybindings, MSync None)].
Proof. vm_compute. repeat split. Qed.

(** The second and the fourth synchronisers throw plain [Error]s: [pull]
    and [sync] return all the same, having gone through the four
    synchronisers; both errors are logged against their sources, and the
    round of [sync] records one entry for each. *)
Lemma loops_isolate_failures_witness :
  let e2 := Error "disk failure" in
  let e4 := Error "quota exceeded" in
  let sc := Mock.failingBoth Keybindings e2 Extensions e4 in
  let Sv := Mock.services sc in
  let st := Mock.fresh sc ∅ in
  StoreService.userDataSyncStore userDataSyncStoreService <> None /\
  fst (pull st) = Ok tt /\
  invocations (emitted st (snd (pull st)))
  = [(Settings, MPull); (Keybindings, MPull); (GlobalState, MPull);
     (Extensions, MPull)] /\
  logged (emitted st (snd (pull st))) = [(Keybindings, e2); (Extensions, e4)] /\
  fst (sync st) = Ok tt /\
  syncInvocations (emitted st (snd (sync st)))
  = [(Settings, None); (Keybindings, None); (GlobalState, None);
     (Extensions, None)] /\
  logged (emitted st (snd (sync st))) = [(Keybindings, e2); (Extensions, e4)] /\
  _syncErrors (snd (sync st))
  = [(Keybindings, UserDataSyncError "disk failure" (OtherCode "Unknown"));
     (Extensions, UserDataSyncError "quota exceeded" (OtherCode "Unknown"))].
Proof.
  intros e2 e4 sc Sv st.
  pose (fetched := (Some {| session := "B"; latest := None |}, @None string)).
  pose (st0 := snd (syncPrelude (set_syncErrors [] st))).
  assert (H1 : StoreService.userDataSyncStore userDataSyncStoreService <> None)
    by discriminate.
  assert (H2 : syncPrelude (set_syncErrors [] st) = (Ok fetched, st0))
    by (vm_compute; reflexivity).
  pose proof (loops_isolate_failures st H1) as H. cbv zeta in H.
  destruct H as ((Hp1 & Hp2 & Hp3 & _) & _ & Hsync & _).
  destruct (Hsync fetched st0 H2) as (_ & Hs1 & _ & Hs2 & Hs3 & Hs4).
  assert (A1 : loopResult (asked Synchroniser.pull synchronisers (world st)) = Ok tt)
    by (vm_compute; reflexivity).
  assert (A2 : map (fun x => (Synchroniser.source (fst x), MPull))
                 (asked Synchroniser.pull synchronisers (world st))
               = [(Settings, MPull); (Keybindings, MPull); (GlobalState, MPull);
                  (Extensions, MPull)]) by (vm_compute; reflexivity).
  assert (A3 : caught (asked Synchroniser.pull synchronisers (world st))
               = [(Keybindings, e2); (Extensions, e4)]) by (vm_compute; reflexivity).
  assert (B0 : propagated
                 (asked (fun s => Synchroniser.sync s
                           (latestRef (fst fetched) (Synchroniser.resourceKey s)))
                    synchronisers (world st0)) = None) by (vm_compute; reflexivity).
  assert (B1 : fst fetched <> None) by discriminate.
  assert (B2 : map (fun x => (Synchroniser.source (fst x),
                              latestRef (fst fetched)
                                (Synchroniser.resourceKey (fst x))))
                 (asked (fun s => Synchroniser.sync s
                           (latestRef (fst fetched) (Synchroniser.resourceKey s)))
                    synchronisers (world st0))
               = [(Settings, None); (Keybindings, None); (GlobalState, None);
                  (Extensions, None)]) by (vm_compute; reflexivity).
  assert (B3 : caught
                 (asked (fun s => Synchroniser.sync s
                           (latestRef (fst fetched) (Synchroniser.resourceKey s)))
                    synchronisers (world st0))
               = [(Keybindings, e2); (Extensions, e4)]) by (vm_compute; reflexivity).
  assert (B4 : map (fun x => (fst x, toUserDataSyncError (snd x)))
                 (caught
                    (asked (fun s => Synchroniser.sync s
                              (latestRef (fst fetched) (Synchroniser.resourceKey s)))
                       synchronisers (world st0)))
               = [(Keybindings, UserDataSyncError "disk failure" (OtherCode "Unknown"));
                  (Extensions, UserDataSyncError "quota exceeded" (OtherCode "Unknown"))])
    by (vm_compute; reflexivity).
  exact (conj H1 (conj (eq_trans Hp1 A1) (conj (eq_trans Hp2 A2)
          (conj (eq_trans Hp3 A3) (conj (Hs1 B0 B1) (conj (eq_trans Hs2 B2)
          (conj (eq_trans Hs3 B3) (eq_trans Hs4 B4)))))))).
Defined.

(** C3, the failing input. With the store not configured,
    [resolveContent] does not fail with "Not enabled": it calls the
    settings synchroniser and returns its content, where the sibling
    [getRemoteContent] throws at once and calls nobody. *)
Theorem resolveContent_ignores_enablement :
  let st := Mock.fresh Mock.unconfigured ∅ in
  StoreService.userDataSyncStore (userDataSyncStoreService (Services := Mock.services Mock.unconfigured)) = None /\
  fst (resolveContent "settings" "ref" st) = Ok (Some "resolved") /\
  invocations (trace (snd (resolveContent "settings" "ref" st)))
  = [(Settings, MResolveContent "ref")] /\
  getRemoteContent Settings false st = (Throw (Error "Not enabled"), st).
Proof. vm_compute. repeat split. Qed.


Lemma equalsAnyOrder_sound :
  (forall a, Mock.equalsAnyOrder a a = true) /\
  (forall a b, Mock.equalsAnyOrder a b = true -> a ≡ₚ b).
Proof.
  unfold Mock.equalsAnyOrder. split.
  - intros a. now apply bool_decide_eq_true.
  - intros a b H. now apply bool_decide_eq_true in H.
Qed.



(** Why the order plays no part in the life of a service: a state that
    holds the sources in another order than the synchronisers' is
    produced by no run of the service. *)
Example reordered_conflicts_are_not_reachable :
  let Sv := Mock.services Mock.healthy in
  let w := Mock.withStatus Settings HasConflicts
             (Mock.withStatus Keybindings HasConflicts (Mock.worldAt 0 Mock.allIdle)) in
  let st := Mock.state Mock.healthy HasConflicts [Keybindings; Settings] ∅ w in
  _conflictsSources st ≡ₚ computeConflictsSources st /\
  DidChangeConflicts [Settings; Keybindings] ∈ emitted st (updateStatus st) /\
  forall stored, ~ reachable stored st.
Proof.
  intros Sv w st. split; [|split].
  - apply perm_swap.
  - apply (updateStatus_conflicts st). split; reflexivity.
  - intros stored Hr. apply reachable_conflictsComputed in Hr.
    unfold conflictsComputed in Hr. simpl in Hr.
    repeat match type of Hr with
           | sublist _ [] => apply sublist_nil_r in Hr; discriminate Hr
           | sublist _ (_ :: _) =>
             let l := fresh "l" in
             let Hl := fresh "Hl" in
             apply sublist_cons_r in Hr;
             destruct Hr as [Hr|(l & Hl & Hr)];
             [|first [discriminate Hl | injection Hl as <-]]
           end.
Qed.

(** No manifest, and the second synchroniser asked has synced before. *)
Lemma sync_TurnedOff_witness :
  let Sv := Mock.services Mock.turnedOff in
  let st := Mock.fresh Mock.turnedOff ∅ in
  StoreService.userDataSyncStore userDataSyncStoreService <> None /\
  StoreService.manifest userDataSyncStoreService (world st)
  = (Ok None, Mock.worldAt 1 Mock.allIdle) /\
  reportsPreviouslySynced synchronisers (Mock.worldAt 1 Mock.allIdle) /\
  fst (sync st)
  = Throw (UserDataSyncError
             "Cannot sync because syncing is turned off in the cloud" TurnedOff) /\
  syncInvocations (trace (snd (sync st))) = [].
Proof.
  intros Sv st.
  assert (H1 : StoreService.userDataSyncStore userDataSyncStoreService <> None)
    by discriminate.
  assert (H2 : StoreService.manifest userDataSyncStoreService (world st)
               = (Ok None, Mock.worldAt 1 Mock.allIdle)) by (vm_compute; reflexivity).
  assert (H3 : reportsPreviouslySynced synchronisers (Mock.worldAt 1 Mock.allIdle)).
  { apply reports_later; [reflexivity|]. apply reports_here. reflexivity. }
  destruct (sync_TurnedOff st _ H1 H2 H3) as (Hr & Hc).
  exact (conj H1 (conj H2 (conj H3 (conj Hr Hc)))).
Defined.

(** C7, counterexample. A stored session id that is the empty string
    exists and differs from the manifest's, yet the round is not refused:
    [sync] returns and every synchroniser was synced. *)
Lemma empty_session_id_does_not_expire :
  let st := Mock.fresh Mock.healthy {[ SESSION_ID_KEY := StoredString "" ]} in
  storageGet SESSION_ID_KEY st = Some "" /\
  StoreService.manifest (userDataSyncStoreService (Services := Mock.services Mock.healthy)) (world st)
  = (Ok (Some {| session := "B"; latest := None |}), Mock.worldAt 1 Mock.allIdle) /\
  "B" <> "" /\
  fst (sync st) = Ok tt /\
  syncInvocations (trace (snd (sync st)))
  = [(Settings, None); (Keybindings, None); (GlobalState, None); (Extensions, None)].
Proof. vm_compute. repeat split. discriminate. Qed.

(** The stored session id is ["A"], the manifest's is ["B"]. *)
Lemma sync_SessionExpired_witness :
  let Sv := Mock.services Mock.healthy in
  let st := Mock.fresh Mock.healthy {[ SESSION_ID_KEY := StoredString "A" ]} in
  let m := {| session := "B"; latest := None |} in
  StoreService.userDataSyncStore userDataSyncStoreService <> None /\
  storageGet SESSION_ID_KEY st = Some "A" /\
  "A" <> "" /\
  StoreService.manifest userDataSyncStoreService (world st)
  = (Ok (Some m), Mock.worldAt 1 Mock.allIdle) /\
  session m <> "A" /\
  fst (sync st)
  = Throw (UserDataSyncError
             "Cannot sync because current session is expired" SessionExpired) /\
  invocations (trace (snd (sync st))) = [] /\
  world (snd (sync st)) = Mock.worldAt 1 Mock.allIdle.
Proof.
  intros Sv st m.
  assert (H1 : StoreService.userDataSyncStore userDataSyncStoreService <> None)
    by discriminate.
  assert (H2 : storageGet SESSION_ID_KEY st = Some "A") by (vm_compute; reflexivity).
  assert (H3 : "A" <> "") by discriminate.
  assert (H4 : StoreService.manifest userDataSyncStoreService (world st)
               = (Ok (Some m), Mock.worldAt 1 Mock.allIdle)) by (vm_compute; reflexivity).
  assert (H5 : session m <> "A") by discriminate.
  destruct (sync_SessionExpired st "A" m _ H1 H2 H3 H4 H5) as (Hr & Hi & Hw).
  exact (conj H1 (conj H2 (conj H3 (conj H4 (conj H5 (conj Hr (conj Hi Hw))))))).
Defined.


(** That round, as traced: the time changes once, at the end of the
    round, when the status is back to [Idle]. *)
Example healthy_round_trace :
  let Sv := Mock.services Mock.healthy in
  let st := snd (sync (Mock.fresh Mock.healthy ∅)) in
  _lastSyncTime st = Some 5 /\
  storageGetNumber LAST_SYNC_TIME_KEY st = Some 5 /\
  trace st
  = [DidChangeStatus Idle; LogTrace "Sync started."; DidChangeStatus Syncing;
     StoreManifest;
     Invoke Settings (MSync None); DidChangeStatus Idle;
     Invoke Keybindings (MSync None); DidChangeStatus Syncing; DidChangeStatus Idle;
     Invoke GlobalState (MSync None); DidChangeStatus Syncing; DidChangeStatus Idle;
     Invoke Extensions (MSync None); DidChangeStatus Syncing; DidChangeStatus Idle;
     LogSyncDone 5; DidChangeLastSyncTime 5; SyncErrors []].
Proof. vm_compute. repeat split. Qed.

(** A manifest, no synchroniser synced before, local data everywhere. *)
Lemma isFirstTimeSyncWithMerge_truth_table_witness :
  let Sv := Mock.services Mock.healthy in
  let st := Mock.fresh Mock.healthy ∅ in
  StoreService.userDataSyncStore userDataSyncStoreService <> None /\
  fst (StoreService.manifest userDataSyncStoreService (world st))
  = Ok (Some {| session := "B"; latest := None |}) /\
  (forall s w, s ∈ synchronisers ->
     result (Synchroniser.hasPreviouslySynced s w) = Ok false) /\
  (forall s w, s ∈ synchronisers ->
     result (Synchroniser.hasLocalData s w) = Ok true) /\
  fst (isFirstTimeSyncWithMerge st) = Ok true.
Proof.
  intros Sv st.
  assert (H1 : StoreService.userDataSyncStore userDataSyncStoreService <> None)
    by discriminate.
  assert (H2 : fst (StoreService.manifest userDataSyncStoreService (world st))
               = Ok (Some {| session := "B"; latest := None |})) by (vm_compute; reflexivity).
  assert (H3 : forall s w, s ∈ synchronisers ->
                 result (Synchroniser.hasPreviouslySynced s w) = Ok false).
  { intros s w Hin. simpl in Hin.
    rewrite !elem_of_cons, elem_of_nil in Hin.
    destruct Hin as [->|[->|[->|[->|[]]]]]; reflexivity. }
  assert (H4 : forall s w, s ∈ synchronisers ->
                 result (Synchroniser.hasLocalData s w) = Ok true).
  { intros s w Hin. simpl in Hin.
    rewrite !elem_of_cons, elem_of_nil in Hin.
    destruct Hin as [->|[->|[->|[->|[]]]]]; reflexivity. }
  exact (conj H1 (conj H2 (conj H3 (conj H4
           (isFirstTimeSyncWithMerge_truth_table _ (fun _ => false) (fun _ => true)
              st H1 H2 H3 H4))))).
Defined.

(** The first synchroniser throws a plain [Error], the third a store
    error of code [TooLarge]: [sync] throws the store error, the fourth
    synchroniser is not called, and the batch fired holds the first
    synchroniser's error alone. *)
Lemma sync_store_error_aborts_witness :
  let e1 := Error "disk failure" in
  let e3 := UserDataSyncStoreError "Server returned 413" TooLarge in
  let sc := Mock.failingBoth Settings e1 GlobalState e3 in
  let Sv := Mock.services sc in
  let st := Mock.fresh sc ∅ in
  let fetched := (Some {| session := "B"; latest := None |}, @None string) in
  let st0 := snd (syncPrelude (set_syncErrors [] st)) in
  StoreService.userDataSyncStore userDataSyncStoreService <> None /\
  syncPrelude (set_syncErrors [] st) = (Ok fetched, st0) /\
  propagated (asked (fun s => Synchroniser.sync s
                               (latestRef (fst fetched) (Synchroniser.resourceKey s)))
                synchronisers (world st0)) = Some e3 /\
  fst (sync st) = Throw e3 /\
  syncInvocations (emitted st (snd (sync st)))
  = [(Settings, None); (Keybindings, None); (GlobalState, None)] /\
  _syncErrors (snd (sync st))
  = [(Settings, UserDataSyncError "disk failure" (OtherCode "Unknown"))] /\
  _status (snd (sync st)) = computeStatus (snd (sync st)) /\
  last (trace (snd (sync st)))
  = Some (SyncErrors
            [(Settings, UserDataSyncError "disk failure" (OtherCode "Unknown"))]).
Proof.
  intros e1 e3 sc Sv st fetched st0.
  assert (H1 : StoreService.userDataSyncStore userDataSyncStoreService <> None)
    by discriminate.
  assert (H2 : syncPrelude (set_syncErrors [] st) = (Ok fetched, st0))
    by (vm_compute; reflexivity).
  assert (H3 : propagated
                 (asked (fun s => Synchroniser.sync s
                           (latestRef (fst fetched) (Synchroniser.resourceKey s)))
                    synchronisers (world st0)) = Some e3) by (vm_compute; reflexivity).
  pose proof (sync_store_error_aborts st st0 fetched e3 H1 H2) as H.
  cbv zeta in H. destruct (H H3) as (Hr & _ & _ & Hi & He & Hs & Hl).
  assert (B2 : map (fun x => (Synchroniser.source (fst x),
                              latestRef (fst fetched)
                                (Synchroniser.resourceKey (fst x))))
                 (asked (fun s => Synchroniser.sync s
                           (latestRef (fst fetched) (Synchroniser.resourceKey s)))
                    synchronisers (world st0))
               = [(Settings, None); (Keybindings, None); (GlobalState, None)])
    by (vm_compute; reflexivity).
  assert (B4 : map (fun x => (fst x, toUserDataSyncError (snd x)))
                 (caught
                    (asked (fun s => Synchroniser.sync s
                              (latestRef (fst fetched) (Synchroniser.resourceKey s)))
                       synchronisers (world st0)))
               = [(Settings, UserDataSyncError "disk failure" (OtherCode "Unknown"))])
    by (vm_compute; reflexivity).
  exact (conj H1 (conj H2 (conj H3 (conj Hr (conj (eq_trans Hi B2)
          (conj (eq_trans He B4)
          (conj Hs (eq_trans Hl (f_equal (fun l => Some (SyncErrors l)) B4))))))))).
Defined.

(** * Further properties of the service *)

Section MoreProperties.
Context `{Sv : Services}.

(** ** What each method calls *)

Lemma callsOnly_start (allowed : Method -> Prop) (st : State) :
  callsOnly allowed (trace st) st.
Proof. exists []. split; [now rewrite app_nil_r | constructor]. Qed.

Lemma callsOnly_emit (allowed : Method -> Prop) (base : list Event)
    (ev : Event) (st : State) :
  match ev with
  | Invoke _ m => allowed m
  | _ => True
  end ->
  callsOnly allowed base st -> callsOnly allowed base (emit ev st).
Proof.
  intros Hev (evs & Ht & Hall). exists (evs ++ [ev]). split.
  - simpl. now rewrite Ht, app_assoc.
  - apply Forall_app. split; [exact Hall | now repeat constructor].
Qed.

Lemma callsOnly_internal (allowed : Method -> Prop) (base : list Event)
    (st st' : State) :
  internal st st' -> callsOnly allowed base st -> callsOnly allowed base st'.
Proof.
  intros (_ & _ & evs' & Ht' & Hn) (evs & Ht & Hall).
  exists (evs ++ evs'). split.
  - now rewrite Ht', Ht, app_assoc.
  - apply Forall_app. split; [exact Hall|].
    eapply Forall_impl; [exact Hn|].
    intros ev Hev. destruct ev; simpl in *; auto; contradiction.
Qed.

Lemma callsOnly_stable (allowed : Method -> Prop) (base : list Event) :
  Stable allowed (callsOnly allowed base).
Proof.
  split.
  - intros st w H. exact H.
  - intros st v H. exact H.
  - intros st key H. exact H.
  - intros st l H. exact H.
  - intros st src m Hm H. now apply callsOnly_emit.
  - intros st ev Hq H. apply callsOnly_emit; [|exact H].
    destruct ev; simpl in *; auto; contradiction.
  - intros st s. apply callsOnly_internal, internal_setStatus.
  - intros st. apply callsOnly_internal, internal_updateStatus.
  - intros st. apply callsOnly_internal, internal_updateLastSyncTime.
Qed.

(** Every public method only adds to the trace, and calls on the
    synchronisers only the methods of its own kind: [pull] only pulls,
    [push] only pushes, [sync] only asks [hasPreviouslySynced] and syncs,
    [stop] only stops, the resets only reset, and the three queries
    ([getRemoteContent], [resolveContent], [isFirstTimeSyncWithMerge])
    only query: they never start a transfer. *)
Theorem methods_call_their_own_kind (st : State) :
  callsOnly (eq MPull) (trace st) (snd (pull st)) /\
  callsOnly (eq MPush) (trace st) (snd (push st)) /\
  callsOnly syncKind (trace st) (snd (sync st)) /\
  callsOnly (eq MStop) (trace st) (snd (stop st)) /\
  (forall src content,
     callsOnly (eq (MAccept content)) (trace st) (snd (accept src content st))) /\
  (forall src preview,
     callsOnly (eq (MGetRemoteContent preview)) (trace st)
       (snd (getRemoteContent src preview st))) /\
  (forall key ref,
     callsOnly (eq (MResolveContent ref)) (trace st)
       (snd (resolveContent key ref st))) /\
  callsOnly firstTimeKind (trace st) (snd (isFirstTimeSyncWithMerge st)) /\
  callsOnly (eq MResetLocal) (trace st) (snd (resetLocal st)) /\
  callsOnly (eq MResetLocal) (trace st) (snd (reset st)).
Proof.
  repeat split; intros.
  - apply (preserves_pull _ _ (callsOnly_stable _ _));
      [reflexivity | apply callsOnly_start].
  - apply (preserves_push _ _ (callsOnly_stable _ _));
      [reflexivity | apply callsOnly_start].
  - apply (preserves_sync _ _ (callsOnly_stable _ _));
      [now left | intros r; right; now exists r | apply callsOnly_start].
  - apply (preserves_stop _ _ (callsOnly_stable _ _));
      [reflexivity | apply callsOnly_start].
  - apply (preserves_accept _ _ (callsOnly_stable _ _));
      [reflexivity | apply callsOnly_start].
  - apply (preserves_getRemoteContent _ _ (callsOnly_stable _ _));
      [reflexivity | apply callsOnly_start].
  - apply (preserves_resolveContent _ _ (callsOnly_stable _ _));
      [reflexivity | apply callsOnly_start].
  - apply (preserves_isFirstTimeSyncWithMerge _ _ (callsOnly_stable _ _));
      [now left | now right | apply callsOnly_start].
  - apply (preserves_resetLocal _ _ (callsOnly_stable _ _));
      [reflexivity | apply callsOnly_start].
  - apply (preserves_reset _ _ (callsOnly_stable _ _));
      [reflexivity | apply callsOnly_start].
Qed.

(** ** What stays under the session key *)

Lemma sessionIdStored_updateLastSyncTime (v : option StorageValue) (st : State) :
  sessionIdStored v st -> sessionIdStored v (updateLastSyncTime st).
Proof.
  unfold sessionIdStored, updateLastSyncTime. intros H.
  case_bool_decide; [|exact H]. simpl.
  rewrite lookup_insert_ne by discriminate. exact H.
Qed.

Lemma sessionIdStored_setStatus (v : option StorageValue) (s : SyncStatus)
    (st : State) :
  sessionIdStored v st -> sessionIdStored v (setStatus s st).
Proof.
  intros H. unfold setStatus. case_bool_decide; [|exact H].
  case_bool_decide; [|exact H].
  now apply sessionIdStored_updateLastSyncTime.
Qed.

Lemma sessionIdStored_updateStatus (v : option StorageValue) (st : State) :
  sessionIdStored v st -> sessionIdStored v (updateStatus st).
Proof.
  intros H. unfold updateStatus. apply sessionIdStored_setStatus.
  now destruct (negb _).
Qed.

Lemma sessionIdStored_listeners (v : option StorageValue) (ws : list W)
    (st : State) :
  sessionIdStored v st ->
  sessionIdStored v
    (fold_left (fun acc w => onDidChangeStatusListener (set_world w acc)) ws st).
Proof.
  revert st. induction ws as [|w ws IH]; intros st H; simpl; [exact H|].
  apply IH. unfold onDidChangeStatusListener.
  destruct (StoreService.userDataSyncStore userDataSyncStoreService);
    [now apply sessionIdStored_updateStatus | exact H].
Qed.

Lemma sessionIdStored_invoke {A : Type} (v : option StorageValue)
    (s : Synchroniser.t W) (m : Method) (call : W -> Outcome W A) :
  preserves (sessionIdStored v) (invoke s m call).
Proof.
  intros st H. unfold invoke. simpl.
  now apply (sessionIdStored_listeners v (fired (call (world st)))
               (emit (Invoke (Synchroniser.source s) m) st)).
Qed.



(** ** The resets *)

(** The loop of [resetLocal]: whatever the synchronisers throw, it
    returns, and each has been asked to reset, in order. *)
Lemma resetLocal_loop (l : list (Synchroniser.t W)) (st : State) :
  let body := fun s : Synchroniser.t W =>
    try_catch (invoke s MResetLocal (Synchroniser.resetLocal s))
      (fun e =>
         bind (modify (emit (LogSourceError (Synchroniser.source s) e)))
              (fun _ => modify (emit (LogError e)))) in
  fst (forEach l body st) = Ok tt /\
  invocations (trace (snd (forEach l body st)))
  = invocations (trace st) ++ map (fun s => (Synchroniser.source s, MResetLocal)) l /\
  (sessionIdStored None st -> sessionIdStored None (snd (forEach l body st))).
Proof.
  intros body. revert st. induction l as [|s l IH]; intros st; simpl.
  - rewrite app_nil_r. auto.
  - unfold bind.
    assert (Hb : exists st1,
               body s st = (Ok tt, st1) /\
               invocations (trace st1)
               = invocations (trace st) ++ [(Synchroniser.source s, MResetLocal)] /\
               (sessionIdStored None st -> sessionIdStored None st1)).
    { unfold body, try_catch.
      pose proof (invoke_invocations s MResetLocal (Synchroniser.resetLocal s) st) as Hi.
      pose proof (sessionIdStored_invoke None s MResetLocal
                    (Synchroniser.resetLocal s) st) as Hs.
      destruct (invoke s MResetLocal (Synchroniser.resetLocal s) st) as [[[]|e] st1];
        simpl in *.
      - exists st1. auto.
      - eexists. split; [reflexivity|]. simpl.
        rewrite !invocations_app, Hi. simpl. rewrite !app_nil_r. auto. }
    destruct Hb as (st1 & Hb & Hi & Hs). rewrite Hb.
    destruct (IH st1) as (Hr & Hi' & Hs').
    split; [exact Hr|]. split; [|auto].
    rewrite Hi', Hi. now rewrite <- app_assoc.
Qed.

Lemma resetLocal_enabled (st : State) :
  StoreService.userDataSyncStore userDataSyncStoreService <> None ->
  fst (resetLocal st) = Ok tt /\
  invocations (trace (snd (resetLocal st)))
  = invocations (trace st)
    ++ map (fun s => (Synchroniser.source s, MResetLocal)) synchronisers /\
  storage (snd (resetLocal st)) !! SESSION_ID_KEY = None.
Proof.
  intros Hen. unfold resetLocal, bind.
  rewrite (checkEnablement_enabled _ Hen). simpl.
  destruct (resetLocal_loop synchronisers
              (storageRemove LAST_SYNC_TIME_KEY (storageRemove SESSION_ID_KEY st)))
    as (Hr & Hi & Hs).
  split; [exact Hr|]. split; [exact Hi|].
  apply Hs. unfold sessionIdStored. simpl.
  rewrite lookup_delete_ne by discriminate. apply lookup_delete_eq.
Qed.

(** What [resetRemote] does when the store is enabled: the request, and a
    log line if it throws; it never throws itself. *)
Lemma resetRemote_enabled (st : State) :
  StoreService.userDataSyncStore userDataSyncStoreService <> None ->
  resetRemote st
  = (Ok tt,
     match fst (StoreService.clear userDataSyncStoreService (world st)) with
     | Ok _ => set_world (snd (StoreService.clear userDataSyncStoreService (world st)))
                 (emit StoreClear st)
     | Throw e =>
       emit (LogError e)
         (set_world (snd (StoreService.clear userDataSyncStoreService (world st)))
            (emit StoreClear st))
     end).
Proof.
  intros Hen. unfold resetRemote, bind, try_catch, clearStore.
  rewrite (checkEnablement_enabled _ Hen).
  destruct (StoreService.clear userDataSyncStoreService (world st)) as [[[]|e] w];
    reflexivity.
Qed.

(** The resets are best effort. With the store enabled, [resetLocal] and
    [reset] return whatever the synchronisers and the store throw; every
    synchroniser has been asked to reset, in order; the stored session id
    is gone; and [reset] has first asked the store to clear, logging the
    error if that failed. *)
Theorem resets_are_best_effort (st : State) :
  StoreService.userDataSyncStore userDataSyncStoreService <> None ->
  (fst (resetLocal st) = Ok tt /\
   invocations (trace (snd (resetLocal st)))
   = invocations (trace st)
     ++ map (fun s => (Synchroniser.source s, MResetLocal)) synchronisers /\
   storageGet SESSION_ID_KEY (snd (resetLocal st)) = None) /\
  (fst (reset st) = Ok tt /\
   invocations (trace (snd (reset st)))
   = invocations (trace st)
     ++ map (fun s => (Synchroniser.source s, MResetLocal)) synchronisers /\
   storageGet SESSION_ID_KEY (snd (reset st)) = None /\
   exists evs,
     trace (snd (reset st))
     = trace st ++ StoreClear
         :: match fst (StoreService.clear userDataSyncStoreService (world st)) with
            | Ok _ => []
            | Throw e => [LogError e]
            end ++ evs).
Proof.
  intros Hen. split.
  - destruct (resetLocal_enabled st Hen) as (Hr & Hi & Hs).
    split; [exact Hr|]. split; [exact Hi|].
    unfold storageGet. now rewrite Hs.
  - unfold reset, bind. rewrite (checkEnablement_enabled _ Hen).
    rewrite (resetRemote_enabled _ Hen).
    set (st1 := match fst (StoreService.clear userDataSyncStoreService (world st)) with
                | Ok _ => _
                | Throw e => _
                end).
    destruct (resetLocal_enabled st1 Hen) as (Hr & Hi & Hs).
    destruct (preserves_resetLocal _ _ (callsOnly_stable (eq MResetLocal) (trace st1))
                eq_refl st1 (callsOnly_start _ st1)) as (evs & Ht & _).
    split; [exact Hr|]. split; [|split].
    + rewrite Hi. f_equal. subst st1.
      destruct (fst (StoreService.clear userDataSyncStoreService (world st)));
        simpl; rewrite !invocations_app; simpl; now rewrite ?app_nil_r.
    + unfold storageGet. now rewrite Hs.
    + exists evs. rewrite Ht. subst st1.
      destruct (fst (StoreService.clear userDataSyncStoreService (world st)));
        simpl; now rewrite <- !app_assoc.
Qed.

(** ** Stopping *)

(** A turn of the loop of [stop] never throws. *)
Lemma stop_turn (s : Synchroniser.t W) (st : State) :
  exists st',
    try_catch
      (bind (gets (fun st => Synchroniser.status s (world st)))
         (fun sstatus =>
            if bool_decide (sstatus <> Idle)
            then invoke s MStop (Synchroniser.stop s)
            else ret tt))
      (fun e => modify (emit (LogError e))) st = (Ok tt, st') /\
    if bool_decide (Synchroniser.status s (world st) <> Idle)
    then world st' = after (Synchroniser.stop s (world st)) /\
         invocations (trace st')
         = invocations (trace st) ++ [(Synchroniser.source s, MStop)]
    else st' = st.
Proof.
  unfold try_catch, bind, gets.
  case_bool_decide as Hs; [|exists st; auto].
  pose proof (invoke_world s MStop (Synchroniser.stop s) st) as Hw.
  pose proof (invoke_invocations s MStop (Synchroniser.stop s) st) as Hi.
  destruct (invoke s MStop (Synchroniser.stop s) st) as [[[]|e] st1]; simpl in *.
  - exists st1. auto.
  - eexists. split; [reflexivity|]. simpl.
    rewrite invocations_app, Hi. simpl. rewrite app_nil_r. auto.
Qed.

Lemma stop_loop (l : list (Synchroniser.t W)) (w0 : W) (st : State) :
  let body := fun s : Synchroniser.t W =>
    try_catch
      (bind (gets (fun st => Synchroniser.status s (world st)))
         (fun sstatus =>
            if bool_decide (sstatus <> Idle)
            then invoke s MStop (Synchroniser.stop s)
            else ret tt))
      (fun e => modify (emit (LogError e))) in
  fst (forEach l body st) = Ok tt /\
  (NoDup l -> stopsAreIndependent l ->
   (forall s, s ∈ l -> Synchroniser.status s (world st) = Synchroniser.status s w0) ->
   invocations (trace (snd (forEach l body st)))
   = invocations (trace st)
     ++ map (fun s => (Synchroniser.source s, MStop))
          (List.filter (fun s => bool_decide (Synchroniser.status s w0 <> Idle)) l)).
Proof.
  intros body. revert st. induction l as [|s l IH]; intros st; simpl.
  - split; [reflexivity|]. intros _ _ _. now rewrite app_nil_r.
  - unfold bind. destruct (stop_turn s st) as (st1 & Hb & Hturn).
    fold (body s) in Hb. rewrite Hb.
    destruct (IH st1) as (Hr & Hcalls). split; [exact Hr|].
    intros Hnd Hind Hst.
    apply NoDup_cons in Hnd. destruct Hnd as (Hs & Hnd).
    assert (Hind' : stopsAreIndependent l).
    { intros a b Ha Hb' Hab. apply Hind; [now right | now right | exact Hab]. }
    rewrite <- (Hst s (list_elem_of_here _ _)).
    destruct (bool_decide (Synchroniser.status s (world st) <> Idle)) eqn:E.
    + destruct Hturn as (Hw & Hi). simpl.
      rewrite Hcalls; [rewrite Hi; now rewrite <- app_assoc | exact Hnd | exact Hind' |].
      intros s' Hs'. rewrite Hw.
      rewrite (Hind s s' (list_elem_of_here _ _) (list_elem_of_further _ _ _ Hs')).
      * apply Hst. now right.
      * intros ->. contradiction.
    + subst st1. apply Hcalls; [exact Hnd | exact Hind' |].
      intros s' Hs'. apply Hst. now right.
Qed.

(** [stop] never throws once the store is enabled: what a synchroniser
    throws is logged.  Idle, the service does nothing at all.  Otherwise,
    with distinct synchronisers whose stops do not change each other's
    status, it stops exactly the synchronisers that were not idle when it
    began, in order, the throwing ones included. *)
Theorem stop_stops_the_busy (st : State) :
  StoreService.userDataSyncStore userDataSyncStoreService <> None ->
  fst (stop st) = Ok tt /\
  (_status st = Idle -> stop st = (Ok tt, st)) /\
  (_status st <> Idle ->
   NoDup synchronisers -> stopsAreIndependent synchronisers ->
   invocations (trace (snd (stop st)))
   = invocations (trace st)
     ++ map (fun s => (Synchroniser.source s, MStop))
          (List.filter
             (fun s => bool_decide (Synchroniser.status s (world st) <> Idle))
             synchronisers)).
Proof.
  intros Hen. unfold stop, bind, gets.
  rewrite (checkEnablement_enabled _ Hen).
  case_bool_decide as Hidle.
  - split; [reflexivity|]. split; [reflexivity | contradiction].
  - destruct (stop_loop synchronisers (world st) st) as (Hr & Hcalls).
    split; [exact Hr|]. split; [contradiction|].
    intros _ Hnd Hind. now apply Hcalls.
Qed.

(** ** Finding a synchroniser *)

Lemma head_filter_first {A : Type} (p : A -> bool) (pre post : list A) (x : A) :
  p x = true -> (forall y, y ∈ pre -> p y = false) ->
  head (List.filter p (pre ++ x :: post)) = Some x.
Proof.
  intros Hx. induction pre as [|y pre IH]; intros Hpre; simpl.
  - now rewrite Hx.
  - rewrite (Hpre y (list_elem_of_here _ _)). apply IH.
    intros z Hz. apply Hpre. now right.
Qed.

Lemma head_filter_none {A : Type} (p : A -> bool) (l : list A) :
  (forall y, y ∈ l -> p y = false) -> List.filter p l = [].
Proof.
  induction l as [|y l IH]; intros Hl; simpl; [reflexivity|].
  rewrite (Hl y (list_elem_of_here _ _)). apply IH.
  intros z Hz. apply Hl. now right.
Qed.

Lemma source_not_among (src : SyncSource) (l : list (Synchroniser.t W)) :
  src ∉ map Synchroniser.source l ->
  forall s, s ∈ l -> bool_decide (Synchroniser.source s = src) = false.
Proof.
  intros Hn s Hs. apply bool_decide_eq_false. intros <-.
  apply Hn. apply list_elem_of_fmap. now exists s.
Qed.

Lemma getRemoteContentFrom_head (l : list (Synchroniser.t W)) (src : SyncSource)
    (preview : bool) (st : State) :
  getRemoteContentFrom l src preview st
  = match head (List.filter
                  (fun s => bool_decide (Synchroniser.source s = src)) l) with
    | Some s =>
      invoke s (MGetRemoteContent preview)
             (Synchroniser.getRemoteContent s preview) st
    | None => (Ok None, st)
    end.
Proof.
  induction l as [|s l IH]; simpl; [reflexivity|].
  case_bool_decide; [reflexivity | exact IH].
Qed.

(** [accept] goes to the first synchroniser of the given source, with the
    content, and its outcome is that call's; for a source no synchroniser
    has it throws a [TypeError], having called nobody and changed
    nothing. *)
Theorem accept_goes_to_the_source (src : SyncSource) (content : string)
    (st : State) :
  StoreService.userDataSyncStore userDataSyncStoreService <> None ->
  (forall pre s post,
     synchronisers = pre ++ s :: post ->
     Synchroniser.source s = src ->
     (forall x, x ∈ pre -> Synchroniser.source x <> src) ->
     accept src content st
     = invoke s (MAccept content) (Synchroniser.accept s content) st) /\
  (src ∉ map Synchroniser.source synchronisers ->
   accept src content st
   = (Throw (Error "TypeError: Cannot read property 'accept' of undefined"), st)).
Proof.
  intros Hen. unfold accept, bind, getSynchroniser.
  rewrite (checkEnablement_enabled _ Hen). split.
  - intros pre s post Hl Hs Hpre. rewrite Hl.
    rewrite (head_filter_first _ pre post s); [reflexivity | |].
    + now apply bool_decide_eq_true.
    + intros y Hy. apply bool_decide_eq_false. now apply Hpre.
  - intros Hn. rewrite head_filter_none; [reflexivity|].
    now apply source_not_among.
Qed.

(** [getRemoteContent] goes to the first synchroniser of the given
    source, the one [getSynchroniser] finds, and its outcome is that
    call's; for a source no synchroniser has it returns null, having
    called nobody and changed nothing. *)
Theorem getRemoteContent_goes_to_the_source (src : SyncSource) (preview : bool)
    (st : State) :
  StoreService.userDataSyncStore userDataSyncStoreService <> None ->
  (forall s,
     getSynchroniser src = Some s ->
     getRemoteContent src preview st
     = invoke s (MGetRemoteContent preview)
              (Synchroniser.getRemoteContent s preview) st) /\
  (forall pre s post,
     synchronisers = pre ++ s :: post ->
     Synchroniser.source s = src ->
     (forall x, x ∈ pre -> Synchroniser.source x <> src) ->
     getSynchroniser src = Some s) /\
  (src ∉ map Synchroniser.source synchronisers ->
   getRemoteContent src preview st = (Ok None, st)).
Proof.
  intros Hen. unfold getRemoteContent, bind, getSynchroniser.
  rewrite (checkEnablement_enabled _ Hen).
  rewrite getRemoteContentFrom_head. split; [|split].
  - intros s Hs. now rewrite Hs.
  - intros pre s post Hl Hs Hpre. rewrite Hl.
    apply head_filter_first.
    + now apply bool_decide_eq_true.
    + intros y Hy. apply bool_decide_eq_false. now apply Hpre.
  - intros Hn. rewrite head_filter_none; [reflexivity|].
    now apply source_not_among.
Qed.

(** [resolveContent] goes to the first synchroniser of the given resource
    key, whether the store is enabled or not, and its outcome is that
    call's; for a key no synchroniser has it returns null, having called
    nobody and changed nothing. *)
Theorem resolveContent_goes_to_the_key (key : ResourceKey) (ref : string)
    (st : State) :
  (forall pre s post,
     synchronisers = pre ++ s :: post ->
     Synchroniser.resourceKey s = key ->
     (forall x, x ∈ pre -> Synchroniser.resourceKey x <> key) ->
     resolveContent key ref st
     = invoke s (MResolveContent ref) (Synchroniser.resolveContent s ref) st) /\
  (key ∉ map Synchroniser.resourceKey synchronisers ->
   resolveContent key ref st = (Ok None, st)).
Proof.
  unfold resolveContent. split.
  - intros pre s post Hl Hs Hpre. rewrite Hl.
    rewrite (head_filter_first _ pre post s); [reflexivity | |].
    + now apply bool_decide_eq_true.
    + intros y Hy. apply bool_decide_eq_false. now apply Hpre.
  - intros Hn. rewrite head_filter_none; [reflexivity|].
    intros s Hs. apply bool_decide_eq_false. intros <-.
    apply Hn. apply list_elem_of_fmap. now exists s.
Qed.

(** ** Recomputing the status *)

Lemma conflictsSources_updateLastSyncTime (st : State) :
  _conflictsSources (updateLastSyncTime st) = _conflictsSources st.
Proof. unfold updateLastSyncTime. now case_bool_decide. Qed.

Lemma conflictsSources_setStatus (s : SyncStatus) (st : State) :
  _conflictsSources (setStatus s st) = _conflictsSources st.
Proof.
  unfold setStatus. case_bool_decide; [|reflexivity].
  case_bool_decide; [|reflexivity].
  now rewrite conflictsSources_updateLastSyncTime.
Qed.

(** The conflict sources [updateStatus] leaves: the computed ones, or the
    former ones when [equals] found them equal to the computed ones. *)
Lemma conflictsSources_updateStatus (st : State) :
  _conflictsSources (updateStatus st)
  = if equals (_conflictsSources st) (computeConflictsSources st)
    then _conflictsSources st
    else computeConflictsSources st.
Proof.
  unfold updateStatus. rewrite conflictsSources_setStatus.
  now destruct (equals _ _).
Qed.

(** [updateStatus] brings the service's view in line with the
    synchronisers: the status it leaves is the aggregate of their
    statuses and, when [equals] accepts only rearrangements, the conflict
    sources it leaves are those in conflict.  Run again in the same world
    it then changes nothing and fires nothing, provided [equals] accepts
    an array compared with itself. *)
Theorem updateStatus_settles (st : State) :
  _status (updateStatus st) = computeStatus st /\
  ((forall a b, equals a b = true -> a ≡ₚ b) ->
   _conflictsSources (updateStatus st) ≡ₚ computeConflictsSources st) /\
  ((forall a, equals a a = true) ->
   updateStatus (updateStatus st) = updateStatus st).
Proof.
  split; [|split].
  - rewrite updateStatus_status. apply computeStatus_world, world_updateStatus.
  - intros Hsound. rewrite conflictsSources_updateStatus.
    destruct (equals _ _) eqn:E; [now apply Hsound | reflexivity].
  - intros Hrefl.
    assert (Hc : computeConflictsSources (updateStatus st)
                 = computeConflictsSources st).
    { unfold computeConflictsSources. now rewrite world_updateStatus. }
    assert (He : equals (_conflictsSources (updateStatus st))
                   (computeConflictsSources (updateStatus st)) = true).
    { rewrite Hc, conflictsSources_updateStatus.
      destruct (equals (_conflictsSources st) (computeConflictsSources st)) eqn:E;
        [exact E | apply Hrefl]. }
    unfold updateStatus at 1. rewrite He. simpl.
    rewrite <- updateStatus_status. apply setStatus_same.
Qed.

(** ** A round of [sync], whatever its outcome *)

(** Once the store is enabled, every round of [sync], returning or
    throwing, ends the same way: the aggregate status is recomputed from
    the synchronisers, the conflict sources are those in conflict (when
    [equals] accepts only rearrangements), and the last thing fired is the
    batch of the round's errors.  The errors of earlier rounds play no
    part: the round is the same whatever the error list held before. *)
Theorem sync_always_settles (st : State) :
  StoreService.userDataSyncStore userDataSyncStoreService <> None ->
  _status (snd (sync st)) = computeStatus (snd (sync st)) /\
  ((forall a b, equals a b = true -> a ≡ₚ b) ->
   _conflictsSources (snd (sync st)) ≡ₚ computeConflictsSources (snd (sync st))) /\
  last (trace (snd (sync st))) = Some (SyncErrors (_syncErrors (snd (sync st)))) /\
  (forall errors, sync (set_syncErrors errors st) = sync st).
Proof.
  intros Hen. rewrite (sync_outcome _ Hen). cbn [snd].
  set (st1 := snd (syncRound (now (world st)) (set_syncErrors [] st))).
  split; [|split; [|split]].
  - apply updateStatus_status.
  - intros Hsound.
    change (_conflictsSources (updateStatus st1)
            ≡ₚ computeConflictsSources (updateStatus st1)).
    assert (Hc : computeConflictsSources (updateStatus st1)
                 = computeConflictsSources st1).
    { unfold computeConflictsSources. now rewrite world_updateStatus. }
    rewrite Hc, conflictsSources_updateStatus.
    destruct (equals _ _) eqn:E; [now apply Hsound | reflexivity].
  - simpl. rewrite last_snoc. now rewrite syncErrors_updateStatus.
  - intros errors. rewrite (sync_outcome (set_syncErrors errors st) Hen).
    reflexivity.
Qed.

(** ** A round of [sync] that succeeds *)





(** ** Completing a pull or a push *)

Lemma status_updateLastSyncTime (st : State) :
  _status (updateLastSyncTime st) = _status st.
Proof. unfold updateLastSyncTime. now case_bool_decide. Qed.

Lemma completion_refreshes (loop : M unit) (st : State) :
  let done := bind loop (fun _ => modify updateLastSyncTime) st in
  fst done = Ok tt ->
  _status (snd done) = Idle ->
  _lastSyncTime (snd done) = Some (now (world (snd done))) /\
  storageGetNumber LAST_SYNC_TIME_KEY (snd done) = Some (now (world (snd done))) /\
  last (trace (snd done)) = Some (DidChangeLastSyncTime (now (world (snd done)))).
Proof.
  unfold bind, modify. destruct (loop st) as [[[]|e] st1]; simpl; [|discriminate].
  intros _ Hidle. rewrite status_updateLastSyncTime in Hidle.
  rewrite (updateLastSyncTime_Idle _ Hidle). simpl.
  unfold storageGetNumber. simpl. rewrite lookup_insert_eq, last_snoc. auto.
Qed.

(** When a [pull] or a [push] returns and leaves the service [Idle], the
    last sync time is the time of its completion: held, persisted under
    the time key, and notified last. *)
Theorem transfer_completion_refreshes (st : State) :
  StoreService.userDataSyncStore userDataSyncStoreService <> None ->
  (fst (pull st) = Ok tt -> _status (snd (pull st)) = Idle ->
   _lastSyncTime (snd (pull st)) = Some (now (world (snd (pull st)))) /\
   storageGetNumber LAST_SYNC_TIME_KEY (snd (pull st))
   = Some (now (world (snd (pull st)))) /\
   last (trace (snd (pull st)))
   = Some (DidChangeLastSyncTime (now (world (snd (pull st)))))) /\
  (fst (push st) = Ok tt -> _status (snd (push st)) = Idle ->
   _lastSyncTime (snd (push st)) = Some (now (world (snd (push st)))) /\
   storageGetNumber LAST_SYNC_TIME_KEY (snd (push st))
   = Some (now (world (snd (push st)))) /\
   last (trace (snd (push st)))
   = Some (DidChangeLastSyncTime (now (world (snd (push st)))))).
Proof.
  intros Hen.
  assert (Hpull : pull st
                  = bind (forEach synchronisers pullOne)
                         (fun _ => modify updateLastSyncTime) st).
  { unfold pull. unfold bind at 1. now rewrite (checkEnablement_enabled _ Hen). }
  assert (Hpush : push st
                  = bind (forEach synchronisers pushOne)
                         (fun _ => modify updateLastSyncTime) st).
  { unfold push. unfold bind at 1. now rewrite (checkEnablement_enabled _ Hen). }
  rewrite Hpull, Hpush. split; apply completion_refreshes.
Qed.

(** ** A service whose store is not configured *)

Lemma inert_listeners (stored : gmap string StorageValue) (ws : list W)
    (st : State) :
  StoreService.userDataSyncStore userDataSyncStoreService = None ->
  inert stored st ->
  inert stored
    (fold_left (fun acc w => onDidChangeStatusListener (set_world w acc)) ws st).
Proof.
  intros Hoff. revert st. induction ws as [|w ws IH]; intros st H; simpl; [exact H|].
  apply IH. unfold onDidChangeStatusListener. rewrite Hoff. exact H.
Qed.

Lemma inert_construct (stored : gmap string StorageValue) (w : W) :
  StoreService.userDataSyncStore userDataSyncStoreService = None ->
  inert stored (construct w stored).
Proof.
  intros Hoff.
  unfold construct, updateStatus, computeStatus, setStatus, inert,
    storageGetNumber, initialLastSyncTime.
  rewrite Hoff.
  destruct (negb _); simpl; repeat split; repeat constructor.
Qed.

(** Without a configured store a service is inert for life: it stays
    [Uninitialized], stores nothing, records no error, keeps the time it
    found at start, and the only thing it ever asks of a synchroniser is
    [resolveContent]. *)
Theorem unconfigured_service_is_inert (stored : gmap string StorageValue)
    (st : State) :
  StoreService.userDataSyncStore userDataSyncStoreService = None ->
  reachable stored st ->
  inert stored st.
Proof.
  intros Hoff Hr.
  induction Hr as [w | st w Hr IH | st Hr IH | st Hr IH | st Hr IH | st Hr IH
                   | st Hr IH | st src content Hr IH | st src preview Hr IH
                   | st key ref Hr IH | st Hr IH | st Hr IH | st Hr IH].
  - now apply inert_construct.
  - exact IH.
  - unfold onDidChangeStatusListener. now rewrite Hoff.
  - now rewrite (proj1 (not_enabled_guarded st Hoff)).
  - now rewrite (proj1 (proj2 (not_enabled_guarded st Hoff))).
  - now rewrite (proj1 (proj2 (proj2 (not_enabled_guarded st Hoff)))).
  - now rewrite (proj1 (proj2 (proj2 (proj2 (not_enabled_guarded st Hoff))))).
  - destruct (not_enabled_guarded st Hoff) as (_ & _ & _ & _ & H & _).
    now rewrite H.
  - destruct (not_enabled_guarded st Hoff) as (_ & _ & _ & _ & _ & H & _).
    now rewrite H.
  - unfold resolveContent. destruct (head _) as [s|]; [|exact IH].
    unfold invoke. simpl.
    apply (inert_listeners stored
             (fired (Synchroniser.resolveContent s ref (world st)))
             (emit (Invoke (Synchroniser.source s) (MResolveContent ref)) st) Hoff).
    destruct IH as (H1 & H2 & H3 & H4 & H5).
    repeat split; try assumption. simpl.
    apply Forall_app. split; [exact H5 | now repeat constructor].
  - destruct (not_enabled_guarded st Hoff) as (_ & _ & _ & _ & _ & _ & H & _).
    now rewrite H.
  - destruct (not_enabled_guarded st Hoff) as (_ & _ & _ & _ & _ & _ & _ & H & _).
    now rewrite H.
  - destruct (not_enabled_guarded st Hoff) as (_ & _ & _ & _ & _ & _ & _ & _ & H).
    now rewrite H.
Qed.

(** ** Asking no more than needed *)

(** [isFirstTimeSyncWithMerge] stops at the first answer that settles
    it.  Without a manifest it returns false and asks no synchroniser
    anything; with a manifest and a synchroniser that has previously
    synced it returns false and [hasLocalData] is never asked. *)
Theorem isFirstTimeSyncWithMerge_stops_early (st : State) (w1 : W) :
  StoreService.userDataSyncStore userDataSyncStoreService <> None ->
  (StoreService.manifest userDataSyncStoreService (world st) = (Ok None, w1) ->
   isFirstTimeSyncWithMerge st
   = (Ok false, set_world w1 (emit StoreManifest st))) /\
  (forall m,
     StoreService.manifest userDataSyncStoreService (world st) = (Ok (Some m), w1) ->
     reportsPreviouslySynced synchronisers w1 ->
     fst (isFirstTimeSyncWithMerge st) = Ok false /\
     callsOnly (eq MHasPreviouslySynced) (trace st)
       (snd (isFirstTimeSyncWithMerge st))).
Proof.
  intros Hen.
  assert (Hrun : isFirstTimeSyncWithMerge st
                 = bind fetchManifest (fun manifest =>
                     match manifest with
                     | None => ret false
                     | Some _ =>
                       bind hasPreviouslySynced (fun previouslySynced =>
                         if previouslySynced then ret false else hasLocalData)
                     end) st).
  { unfold isFirstTimeSyncWithMerge. unfold bind at 1.
    now rewrite (checkEnablement_enabled _ Hen). }
  rewrite Hrun. split.
  - intros Hman. unfold bind. now rewrite (fetchManifest_run _ _ _ Hman).
  - intros m Hman Hrep. unfold bind at 1 3.
    rewrite (fetchManifest_run _ _ _ Hman).
    set (st1 := set_world w1 (emit StoreManifest st)).
    pose proof (hasPreviouslySyncedFrom_reports synchronisers st1 Hrep) as Hp.
    assert (Hc : callsOnly (eq MHasPreviouslySynced) (trace st)
                   (snd (hasPreviouslySyncedFrom synchronisers st1))).
    { apply (preserves_hasPreviouslySyncedFrom _ _ (callsOnly_stable _ _));
        [reflexivity|].
      apply (callsOnly_emit _ _ StoreManifest st Logic.I), callsOnly_start. }
    unfold bind, hasPreviouslySynced.
    destruct (hasPreviouslySyncedFrom synchronisers st1) as [r st2].
    simpl in Hp, Hc. subst r. split; [reflexivity | exact Hc].
Qed.

(** ** The constructor and the stored time *)

Lemma setStatus_without_conflicts (s : SyncStatus) (st : State) :
  _status st <> HasConflicts ->
  setStatus s st
  = if bool_decide (_status st <> s)
    then emit (DidChangeStatus s) (set_status s st)
    else st.
Proof.
  intros H. unfold setStatus. now rewrite (bool_decide_eq_false_2 _ H).
Qed.

Lemma updateStatus_from_Uninitialized (st : State) :
  _status st = Uninitialized ->
  storage (updateStatus st) = storage st /\
  _lastSyncTime (updateStatus st) = _lastSyncTime st /\
  exists evs, trace (updateStatus st) = trace st ++ evs /\
              forall t, DidChangeLastSyncTime t ∉ evs.
Proof.
  intros H. unfold updateStatus.
  destruct (negb _).
  - rewrite setStatus_without_conflicts by (simpl; congruence).
    case_bool_decide; simpl; (split; [reflexivity|]); (split; [reflexivity|]).
    + eexists [DidChangeConflicts _; DidChangeStatus _].
      split; [now rewrite <- app_assoc|].
      intros t Hin. rewrite ?elem_of_cons, ?elem_of_nil in Hin.
      intuition discriminate.
    + eexists [DidChangeConflicts _]. split; [reflexivity|].
      intros t Hin. rewrite ?elem_of_cons, ?elem_of_nil in Hin.
      intuition discriminate.
  - rewrite setStatus_without_conflicts by congruence.
    case_bool_decide; simpl; (split; [reflexivity|]); (split; [reflexivity|]).
    + exists [DidChangeStatus (computeStatus st)]. split; [reflexivity|].
      intros t Hin. rewrite ?elem_of_cons, ?elem_of_nil in Hin.
      intuition discriminate.
    + exists []. split; [now rewrite app_nil_r|]. intros t. apply not_elem_of_nil.
Qed.

(** The constructor only reads.  A service just built has the aggregate
    status of its synchronisers, the storage it was given, no error, and
    for last sync time the number found under the time key, if any; it
    has notified no time change.  So the time a service refreshed comes
    back when a service is built again from its storage. *)
Theorem construct_restores_lastSyncTime (stored : gmap string StorageValue)
    (w : W) :
  _status (construct w stored) = computeStatus (construct w stored) /\
  storage (construct w stored) = stored /\
  _syncErrors (construct w stored) = [] /\
  _lastSyncTime (construct w stored) = initialLastSyncTime stored /\
  (forall t, DidChangeLastSyncTime t ∉ trace (construct w stored)) /\
  (forall st : State,
     _status st = Idle ->
     _lastSyncTime (construct w (storage (updateLastSyncTime st)))
     = Some (now (world st))).
Proof.
  assert (Hgen : forall g,
            storage (construct w g) = g /\
            _lastSyncTime (construct w g) = initialLastSyncTime g /\
            forall t, DidChangeLastSyncTime t ∉ trace (construct w g)).
  { intros g. unfold construct.
    destruct (updateStatus_from_Uninitialized
                (mkState Uninitialized [] [] None g w []) eq_refl)
      as (Hs & _ & evs & Ht & Hn).
    simpl in *. split; [exact Hs|]. split.
    - unfold storageGetNumber, initialLastSyncTime. now rewrite Hs.
    - intros t. rewrite Ht. apply Hn. }
  destruct (Hgen stored) as (Hs & Hl & Hn).
  split; [|split; [exact Hs|split; [|split; [exact Hl|split; [exact Hn|]]]]].
  - unfold construct. apply updateStatus_status.
  - unfold construct. simpl. now rewrite syncErrors_updateStatus.
  - intros st Hidle. rewrite (proj1 (proj2 (Hgen _))).
    rewrite (updateLastSyncTime_Idle _ Hidle).
    unfold initialLastSyncTime. simpl. now rewrite lookup_insert_eq.
Qed.

End MoreProperties.

(** ** The triggers of the auto-sync service *)

Lemma mergeBurst_from (sources : list string) (last : option (list string)) :
  sources <> [] ->
  fold_left (fun last source => Some (mergeSources last source)) sources last
  = Some (default [] last ++ sources).
Proof.
  revert last. induction sources as [|s sources IH]; intros last Hne;
    [contradiction|].
  simpl. destruct sources as [|s' sources].
  - destruct last; reflexivity.
  - rewrite IH by discriminate. destruct last; simpl; [|reflexivity].
    now rewrite <- app_assoc.
Qed.

(** The reducer given to the debouncer drops nothing: merged event after
    event, a burst of window events hands on the sources of all its
    events, in the order they came, repetitions included. *)
Theorem mergeBurst_keeps_every_source (sources : list string) :
  sources <> [] -> mergeBurst sources = Some sources.
Proof. intros Hne. unfold mergeBurst. now rewrite mergeBurst_from. Qed.

(** * The further properties on scripted environments *)

(** Every synchroniser and the store throw: the resets return all the
    same. *)
Lemma resets_are_best_effort_witness :
  let Sv := Faulty.services in
  let st := Faulty.fresh {[ SESSION_ID_KEY := StoredString "A" ]} in
  StoreService.userDataSyncStore userDataSyncStoreService <> None /\
  fst (reset st) = Ok tt /\
  invocations (trace (snd (reset st)))
  = [(Settings, MResetLocal); (Keybindings, MResetLocal);
     (GlobalState, MResetLocal); (Extensions, MResetLocal)] /\
  storageGet SESSION_ID_KEY (snd (reset st)) = None.
Proof.
  intros Sv st.
  assert (H1 : StoreService.userDataSyncStore userDataSyncStoreService <> None)
    by discriminate.
  destruct (resets_are_best_effort st H1) as (_ & Hr & Hi & Hs & _).
  exact (conj H1 (conj Hr (conj Hi Hs))).
Defined.

Lemma faulty_synchronisers_NoDup :
  NoDup (synchronisers (Services := Faulty.services)).
Proof.
  simpl. repeat constructor; rewrite ?elem_of_cons, ?elem_of_nil;
    intros H; repeat destruct H as [H|H]; try contradiction;
    apply (f_equal Synchroniser.source) in H; discriminate.
Qed.

(** Four busy synchronisers whose [stop] throws: each is stopped. *)
Lemma stop_stops_the_busy_witness :
  let Sv := Faulty.services in
  let st := Faulty.fresh ∅ in
  StoreService.userDataSyncStore userDataSyncStoreService <> None /\
  _status st <> Idle /\
  NoDup synchronisers /\
  stopsAreIndependent synchronisers /\
  fst (stop st) = Ok tt /\
  invocations (trace (snd (stop st)))
  = [(Settings, MStop); (Keybindings, MStop); (GlobalState, MStop);
     (Extensions, MStop)].
Proof.
  intros Sv st.
  assert (H1 : StoreService.userDataSyncStore userDataSyncStoreService <> None)
    by discriminate.
  assert (H2 : _status st <> Idle) by (vm_compute; discriminate).
  assert (H3 : NoDup synchronisers) by apply faulty_synchronisers_NoDup.
  assert (H4 : stopsAreIndependent synchronisers).
  { intros s s' Hs Hs' _ w. simpl in Hs, Hs'.
    rewrite !elem_of_cons, elem_of_nil in Hs'.
    destruct Hs' as [->|[->|[->|[->|[]]]]]; reflexivity. }
  destruct (stop_stops_the_busy st H1) as (Hr & _ & Hcalls).
  exact (conj H1 (conj H2 (conj H3 (conj H4 (conj Hr (Hcalls H2 H3 H4)))))).
Defined.

(** [accept] for the keybindings: the second synchroniser is called. *)
Lemma accept_goes_to_the_source_witness :
  let Sv := Mock.services Mock.healthy in
  let st := Mock.fresh Mock.healthy ∅ in
  StoreService.userDataSyncStore userDataSyncStoreService <> None /\
  accept Keybindings "{}" st
  = invoke (Mock.synchroniser Mock.healthy Keybindings) (MAccept "{}")
      (Synchroniser.accept (Mock.synchroniser Mock.healthy Keybindings) "{}") st.
Proof.
  intros Sv st.
  assert (H1 : StoreService.userDataSyncStore userDataSyncStoreService <> None)
    by discriminate.
  refine (conj H1 (proj1 (accept_goes_to_the_source Keybindings "{}" st H1)
                     [Mock.synchroniser Mock.healthy Settings] _
                     [Mock.synchroniser Mock.healthy GlobalState;
                      Mock.synchroniser Mock.healthy Extensions]
                     eq_refl eq_refl _)).
  intros x Hx. apply list_elem_of_singleton in Hx. subst x. discriminate.
Defined.

(** [getRemoteContent] for the keybindings: the same synchroniser. *)
Lemma getRemoteContent_goes_to_the_source_witness :
  let Sv := Mock.services Mock.healthy in
  let st := Mock.fresh Mock.healthy ∅ in
  StoreService.userDataSyncStore userDataSyncStoreService <> None /\
  getSynchroniser Keybindings = Some (Mock.synchroniser Mock.healthy Keybindings) /\
  getRemoteContent Keybindings true st
  = invoke (Mock.synchroniser Mock.healthy Keybindings) (MGetRemoteContent true)
      (Synchroniser.getRemoteContent
         (Mock.synchroniser Mock.healthy Keybindings) true) st.
Proof.
  intros Sv st.
  assert (H1 : StoreService.userDataSyncStore userDataSyncStoreService <> None)
    by discriminate.
  assert (H2 : getSynchroniser Keybindings
               = Some (Mock.synchroniser Mock.healthy Keybindings)) by reflexivity.
  exact (conj H1 (conj H2
           (proj1 (getRemoteContent_goes_to_the_source Keybindings true st H1)
              _ H2))).
Defined.

(** A round in the healthy environment, from a failing one's errors. *)
Lemma sync_always_settles_witness :
  let Sv := Mock.services Mock.healthy in
  let st := Mock.fresh Mock.healthy ∅ in
  StoreService.userDataSyncStore userDataSyncStoreService <> None /\
  _status (snd (sync st)) = computeStatus (snd (sync st)) /\
  last (trace (snd (sync st))) = Some (SyncErrors (_syncErrors (snd (sync st)))) /\
  sync (set_syncErrors [(Settings, Error "old")] st) = sync st.
Proof.
  intros Sv st.
  assert (H1 : StoreService.userDataSyncStore userDataSyncStoreService <> None)
    by discriminate.
  destruct (sync_always_settles st H1) as (Hs & _ & Hl & He).
  exact (conj H1 (conj Hs (conj Hl (He _)))).
Defined.


(** A pull in the healthy environment ends at time 4, idle. *)
Lemma transfer_completion_refreshes_witness :
  let Sv := Mock.services Mock.healthy in
  let st := Mock.fresh Mock.healthy ∅ in
  StoreService.userDataSyncStore userDataSyncStoreService <> None /\
  fst (pull st) = Ok tt /\
  _status (snd (pull st)) = Idle /\
  now (world (snd (pull st))) = 4 /\
  _lastSyncTime (snd (pull st)) = Some (now (world (snd (pull st)))).
Proof.
  intros Sv st.
  assert (H1 : StoreService.userDataSyncStore userDataSyncStoreService <> None)
    by discriminate.
  assert (H2 : fst (pull st) = Ok tt) by (vm_compute; reflexivity).
  assert (H3 : _status (snd (pull st)) = Idle) by (vm_compute; reflexivity).
  assert (H4 : now (world (snd (pull st))) = 4) by (vm_compute; reflexivity).
  exact (conj H1 (conj H2 (conj H3 (conj H4
           (proj1 (proj1 (transfer_completion_refreshes st H1) H2 H3)))))).
Defined.

(** An unconfigured service after a call of [resolveContent]. *)
Lemma unconfigured_service_is_inert_witness :
  let Sv := Mock.services Mock.unconfigured in
  let st := snd (resolveContent "settings" "ref" (Mock.fresh Mock.unconfigured ∅)) in
  StoreService.userDataSyncStore userDataSyncStoreService = None /\
  reachable ∅ st /\
  inert ∅ st.
Proof.
  intros Sv st.
  assert (H1 : StoreService.userDataSyncStore userDataSyncStoreService = None)
    by reflexivity.
  assert (H2 : reachable ∅ st) by (apply reach_resolveContent, reach_construct).
  exact (conj H1 (conj H2 (unconfigured_service_is_inert ∅ st H1 H2))).
Defined.

(** A manifest, and the second synchroniser asked has synced before: the
    third and the fourth are not asked, and nobody is asked for local
    data. *)
Lemma isFirstTimeSyncWithMerge_stops_early_witness :
  let Sv := Mock.services syncedBefore in
  let st := Mock.fresh syncedBefore ∅ in
  let m := {| session := "B"; latest := None |} in
  StoreService.userDataSyncStore userDataSyncStoreService <> None /\
  StoreService.manifest userDataSyncStoreService (world st)
  = (Ok (Some m), Mock.worldAt 1 Mock.allIdle) /\
  reportsPreviouslySynced synchronisers (Mock.worldAt 1 Mock.allIdle) /\
  fst (isFirstTimeSyncWithMerge st) = Ok false /\
  invocations (trace (snd (isFirstTimeSyncWithMerge st)))
  = [(Settings, MHasPreviouslySynced); (Keybindings, MHasPreviouslySynced)].
Proof.
  intros Sv st m.
  assert (H1 : StoreService.userDataSyncStore userDataSyncStoreService <> None)
    by discriminate.
  assert (H2 : StoreService.manifest userDataSyncStoreService (world st)
               = (Ok (Some m), Mock.worldAt 1 Mock.allIdle))
    by (vm_compute; reflexivity).
  assert (H3 : reportsPreviouslySynced synchronisers (Mock.worldAt 1 Mock.allIdle)).
  { apply reports_later; [reflexivity|]. apply reports_here. reflexivity. }
  assert (H4 : invocations (trace (snd (isFirstTimeSyncWithMerge st)))
               = [(Settings, MHasPreviouslySynced);
                  (Keybindings, MHasPreviouslySynced)])
    by (vm_compute; reflexivity).
  exact (conj H1 (conj H2 (conj H3 (conj
           (proj1 (proj2 (isFirstTimeSyncWithMerge_stops_early st _ H1) m H2 H3))
           H4)))).
Defined.

(** A window focused, opened, focused again within the delay. *)
Lemma mergeBurst_keeps_every_source_witness :
  ["windowFocus"; "windowOpen"; "windowFocus"] <> [] /\
  mergeBurst ["windowFocus"; "windowOpen"; "windowFocus"]
  = Some ["windowFocus"; "windowOpen"; "windowFocus"].
Proof.
  assert (H : ["windowFocus"; "windowOpen"; "windowFocus"] <> [])
    by discriminate.
  exact (conj H (mergeBurst_keeps_every_source _ H)).
Defined.
